(** * Lvault e-mail worker: body decoder, forward composer and handler

    Shallow embedding of [src/index.ts] (a Cloudflare e-mail worker that
    parses an inbound message and forwards it through MailChannels), and the
    properties its specification states about it.

    JavaScript strings are sequences of UTF-16 code units; they are modelled
    as lists of [N].  The built-ins the worker calls ([trim], [split],
    [includes], [join], regular-expression [match], [TextDecoder]) are
    modelled after ECMA-262 and the WHATWG Encoding standard. *)

From Stdlib Require Import String Ascii DecimalString.
From Stdlib Require Import Strings.Byte.
From Stdlib Require Import List NArith Bool Arith Lia.
Import ListNotations.

(** ** JavaScript strings *)

Module JsString.

Definition code_unit := N.
Definition jsstring := list code_unit.

(** An ASCII literal of the source, as code units. *)
Definition lit (s : string) : jsstring :=
  map N_of_ascii (list_ascii_of_string s).

Definition LF : code_unit := 10%N.
Definition CR : code_unit := 13%N.

Fixpoint str_eqb (a b : jsstring) : bool :=
  match a, b with
  | [], [] => true
  | x :: a', y :: b' => N.eqb x y && str_eqb a' b'
  | _, _ => false
  end.

(** A string is truthy when it is not empty. *)
Definition truthy (s : jsstring) : bool :=
  match s with [] => false | _ :: _ => true end.

(** [a || b] on strings. *)
Definition or_else (a b : jsstring) : jsstring :=
  if truthy a then a else b.

(** ECMA-262 WhiteSpace and LineTerminator code points: what [trim]
    strips and what [\s] matches. *)
Definition isWhiteSpace (c : code_unit) : bool :=
  ((9 <=? c) && (c <=? 13) || (c =? 32) || (c =? 160) || (c =? 0x1680)
   || (0x2000 <=? c) && (c <=? 0x200A)
   || (c =? 0x2028) || (c =? 0x2029) || (c =? 0x202F) || (c =? 0x205F)
   || (c =? 0x3000) || (c =? 0xFEFF))%N.

Fixpoint dropWhile (p : code_unit -> bool) (s : jsstring) : jsstring :=
  match s with
  | [] => []
  | c :: t => if p c then dropWhile p t else s
  end.

Definition trimStart (s : jsstring) : jsstring := dropWhile isWhiteSpace s.
Definition trimEnd (s : jsstring) : jsstring :=
  rev (dropWhile isWhiteSpace (rev s)).
Definition trim (s : jsstring) : jsstring := trimEnd (trimStart s).

(** [strip_prefix pat s] is the rest of [s] after [pat], when [s] starts
    with [pat]. *)
Fixpoint strip_prefix (pat s : jsstring) : option jsstring :=
  match pat, s with
  | [], _ => Some s
  | p :: pat', c :: s' => if N.eqb p c then strip_prefix pat' s' else None
  | _ :: _, [] => None
  end.

Definition startsWith (pat s : jsstring) : bool :=
  match strip_prefix pat s with Some _ => true | None => false end.

(** [s.includes(pat)] *)
Fixpoint includes (pat s : jsstring) : bool :=
  startsWith pat s ||
  match s with
  | [] => false
  | _ :: t => includes pat t
  end.

(** [l.join(sep)] *)
Fixpoint join (sep : jsstring) (l : list jsstring) : jsstring :=
  match l with
  | [] => []
  | [x] => x
  | x :: t => x ++ sep ++ join sep t
  end.

(** The splitting loop shared by [String.prototype.split] with a string
    and with a regular expression (ECMA-262, SplitMatcher): [matcher t]
    is the length of the separator found at the head of [t].  The scan
    position moves one unit at a time; [skip] counts the units of a
    separator still to be passed, [cur] is the piece being collected (in
    reverse).  A match of length zero is treated as no match; none of the
    separators of this program is empty. *)
Fixpoint split_go (matcher : jsstring -> option nat) (s : jsstring)
         (skip : nat) (cur : jsstring) : list jsstring :=
  match s with
  | [] => [rev cur]
  | c :: t =>
      match skip with
      | S k => split_go matcher t k cur
      | O =>
          match matcher s with
          | Some (S k) => rev cur :: split_go matcher t k []
          | _ => split_go matcher t 0 (c :: cur)
          end
      end
  end.

Definition split_with (matcher : jsstring -> option nat) (s : jsstring)
  : list jsstring :=
  split_go matcher s 0 [].

(** [s.split(sep)] for a non-empty string [sep]. *)
Definition split_str (sep s : jsstring) : list jsstring :=
  split_with (fun t => if startsWith sep t then Some (length sep) else None) s.

(** Decimal rendering of a non-negative integer Number. *)
Definition number_toString (n : N) : jsstring :=
  lit (NilZero.string_of_uint (N.to_uint n)).

End JsString.
Import JsString.

(** ** Regular expressions

    The four regular expressions of the source use literals, single
    character classes, [x?], [x*] over a class and one capturing group
    [(x+)] over a class.  [match_here] is the backtracking matcher of
    ECMA-262 restricted to these forms: quantifiers are greedy and give
    characters back when the rest of the pattern fails. *)

Module Regex.

Inductive atom :=
| One (p : code_unit -> bool)
| Opt (p : code_unit -> bool)
| Star (p : code_unit -> bool)
| CapPlus (p : code_unit -> bool).

Definition regex := list atom.

Definition first_of {A} (a b : option A) : option A :=
  match a with Some _ => a | None => b end.

(** A match at the head of [s]: the text of the capturing group (empty
    when the pattern has none) and the text after the match. *)
Fixpoint match_here (r : regex) (s : jsstring) {struct r}
  : option (jsstring * jsstring) :=
  match r with
  | [] => Some ([], s)
  | One p :: r' =>
      match s with
      | c :: t => if p c then match_here r' t else None
      | [] => None
      end
  | Opt p :: r' =>
      match s with
      | c :: t =>
          if p c then first_of (match_here r' t) (match_here r' s)
          else match_here r' s
      | [] => match_here r' s
      end
  | Star p :: r' =>
      (fix star (s : jsstring) : option (jsstring * jsstring) :=
         match s with
         | c :: t =>
             if p c then first_of (star t) (match_here r' s)
             else match_here r' s
         | [] => match_here r' []
         end) s
  | CapPlus p :: r' =>
      let finish (got s : jsstring) :=
        match match_here r' s with
        | Some (_, rest) => Some (rev got, rest)
        | None => None
        end in
      match s with
      | c :: t =>
          if p c then
            (fix more (got s : jsstring) {struct s}
               : option (jsstring * jsstring) :=
               match s with
               | c :: t =>
                   if p c then first_of (more (c :: got) t) (finish got s)
                   else finish got s
               | [] => finish got []
               end) [c] t
          else None
      | [] => None
      end
  end.

(** Length of the match at the head of [s]. *)
Definition match_len (r : regex) (s : jsstring) : option nat :=
  match match_here r s with
  | Some (_, rest) => Some (length s - length rest)
  | None => None
  end.

(** [s.match(r)] for a regex without the global flag: the leftmost
    position where [r] matches; the result is capture group 1. *)
Fixpoint exec (r : regex) (s : jsstring) : option jsstring :=
  match match_here r s with
  | Some (cap, _) => Some cap
  | None =>
      match s with
      | [] => None
      | _ :: t => exec r t
      end
  end.

Definition chr (x : code_unit) : code_unit -> bool := fun c => N.eqb c x.

Definition ascii_upper (c : code_unit) : code_unit :=
  if ((97 <=? c) && (c <=? 122))%N then (c - 32)%N else c.

(** A literal character [p] of a pattern with the [i] flag, [p] in
    ASCII.  Canonicalize never maps a code unit of 128 or more to one
    below 128, so only the two ASCII cases of [p] match. *)
Definition ci (p : code_unit) : code_unit -> bool :=
  fun c => N.eqb (ascii_upper p) (ascii_upper c).

Definition ci_lit (s : string) : regex := map (fun p => One (ci p)) (lit s).

(** [[^;\r\n]] *)
Definition notSemiCrLf (c : code_unit) : bool :=
  negb ((c =? 59) || (c =? CR) || (c =? LF))%N.

(** The class of the regex that strips quotes: the apostrophe and the
    double quote. *)
Definition isQuote (c : code_unit) : bool := ((c =? 39) || (c =? 34))%N.

(** [/\r?\n\r?\n/] *)
Definition re_blank_line : regex :=
  [Opt (chr CR); One (chr LF); Opt (chr CR); One (chr LF)].

(** [/Content-Type:\s*([^;\r\n]+)/i] *)
Definition re_content_type : regex :=
  ci_lit "Content-Type:" ++ [Star isWhiteSpace; CapPlus notSemiCrLf].

(** [/boundary=([^;\r\n]+)/i] *)
Definition re_boundary : regex :=
  ci_lit "boundary=" ++ [CapPlus notSemiCrLf].

(** [s.split(r)] for a regex without capturing groups. *)
Definition split_re (r : regex) (s : jsstring) : list jsstring :=
  split_with (match_len r) s.

(** [s.replace(r, empty)] for a global regex [r] that is one character
    class: every character of the class is removed. *)
Definition remove_class (p : code_unit -> bool) (s : jsstring) : jsstring :=
  filter (fun c => negb (p c)) s.

End Regex.
Import Regex.

(** ** UTF-8 decoding: [new TextDecoder().decode(bytes)]

    The WHATWG UTF-8 decoder in replacement mode, with the byte order mark
    removed ([ignoreBOM] is false by default), and the code points written
    as UTF-16 code units. *)

Module Utf8.

Record decoder := {
  code_point : N;
  bytes_seen : N;
  bytes_needed : N;
  lower : N;
  upper : N
}.

Definition fresh : decoder :=
  {| code_point := 0; bytes_seen := 0; bytes_needed := 0;
     lower := 0x80; upper := 0xBF |}.

Definition expect (cp needed lo hi : N) : decoder :=
  {| code_point := cp; bytes_seen := 0; bytes_needed := needed;
     lower := lo; upper := hi |}.

(** The decoder on a byte when no sequence is open. *)
Definition lead (b : N) : decoder * list N :=
  (if b <=? 0x7F then (fresh, [b])
   else if (0xC2 <=? b) && (b <=? 0xDF) then
     (expect (N.land b 0x1F) 1 0x80 0xBF, [])
   else if (0xE0 <=? b) && (b <=? 0xEF) then
     (expect (N.land b 0xF) 2
        (if b =? 0xE0 then 0xA0 else 0x80)
        (if b =? 0xED then 0x9F else 0xBF), [])
   else if (0xF0 <=? b) && (b <=? 0xF4) then
     (expect (N.land b 0x7) 3
        (if b =? 0xF0 then 0x90 else 0x80)
        (if b =? 0xF4 then 0x8F else 0xBF), [])
   else (fresh, [0xFFFD]))%N.

(** One byte: the new state and the code points emitted.  A byte that
    breaks an open sequence yields U+FFFD and is read again as a lead
    byte. *)
Definition feed (d : decoder) (b : N) : decoder * list N :=
  (if bytes_needed d =? 0 then lead b
   else if (b <? lower d) || (upper d <? b) then
     let '(d', out) := lead b in (d', 0xFFFD :: out)
   else
     let cp := N.lor (N.shiftl (code_point d) 6) (N.land b 0x3F) in
     if bytes_seen d + 1 =? bytes_needed d then (fresh, [cp])
     else ({| code_point := cp; bytes_seen := bytes_seen d + 1;
              bytes_needed := bytes_needed d;
              lower := 0x80; upper := 0xBF |}, []))%N.

Fixpoint run (d : decoder) (bs : list byte) : list N :=
  match bs with
  | [] => if (bytes_needed d =? 0)%N then [] else [0xFFFD%N]
  | b :: t => let '(d', out) := feed d (Byte.to_N b) in out ++ run d' t
  end.

Definition utf16 (cp : N) : jsstring :=
  (if cp <? 0x10000 then [cp]
   else let v := cp - 0x10000 in
        [0xD800 + N.shiftr v 10; 0xDC00 + N.land v 0x3FF])%N.

Definition strip_bom (cps : list N) : list N :=
  match cps with
  | c :: t => if (c =? 0xFEFF)%N then t else cps
  | [] => []
  end.

Definition decode (bs : list byte) : jsstring :=
  flat_map utf16 (strip_bom (run fresh bs)).

End Utf8.

(** ** [Uint8Array] *)

Module Uint8Array.

Definition t := list byte.

(** [new Uint8Array(n)]: [n] zero bytes. *)
Definition make (n : nat) : t := repeat x00 n.

(** [arr.set(src, offset)]; [None] is the RangeError raised when [src]
    does not fit. *)
Definition set (arr : t) (src : list byte) (offset : nat) : option t :=
  if offset + length src <=? length arr then
    Some (firstn offset arr ++ src ++ skipn (offset + length src) arr)
  else None.

End Uint8Array.

(** ** Data model of the worker *)

Record EmailAddress := {
  email : jsstring;
  name : option jsstring
}.

(** A thrown value: an [Error] with its message, or anything else. *)
Inductive thrown :=
| ErrorValue (message : jsstring)
| OtherValue.

(** [ReadableStream<Uint8Array>], as what its reader delivers: chunks, then
    the end of the stream or a failed read. *)
Inductive ReadableStream :=
| StreamEnd
| StreamFail (e : thrown)
| StreamChunk (value : list byte) (rest : ReadableStream).

Record EmailMessage := {
  from : EmailAddress;
  to : list EmailAddress;
  cc : option (list EmailAddress);
  bcc : option (list EmailAddress);
  subject : jsstring;
  raw : ReadableStream;
  rawSize : N
}.

Record ContentPart := {
  type : jsstring;
  value : jsstring
}.

Record Personalization := {
  personalization_to : list EmailAddress
}.

Record MailChannelsPayload := {
  personalizations : list Personalization;
  payload_from : EmailAddress;
  payload_subject : jsstring;
  content : list ContentPart
}.

Record ParsedEmailContent := {
  textBody : jsstring;
  htmlBody : option jsstring;
  contentType : jsstring
}.

(** [FORWARD_TO_EMAIL] is [None] when the variable is not bound. *)
Record Env := {
  FORWARD_TO_EMAIL : option jsstring
}.

(** The response of the MailChannels API as the worker reads it. *)
Record FetchResponse := {
  response_status : N;
  response_text : jsstring
}.

(** [response.ok] (Fetch standard): the status is in 200..299. *)
Definition ok (r : FetchResponse) : bool :=
  ((200 <=? response_status r) && (response_status r <=? 299))%N.

(** What [await fetch(...)] and the reading of the body give: a response
    whose body text was read; a network call that threw; or a response with
    the status given whose [response.text()] threw. *)
Inductive fetch_result :=
| Responded (r : FetchResponse)
| Rejected (e : thrown)
| Unreadable (status : N) (e : thrown).

(** The [Response] the handler returns. *)
Record Response := {
  status : N;
  body : jsstring;
  headers : list (jsstring * jsstring)
}.

(** What the platform supplies: Unicode lower-casing, the clock, the random
    session identifier and the network. *)
Record Host := {
  toLowerCase : jsstring -> jsstring;
  isoText : jsstring;
  isoHtml : jsstring;
  sessionId : jsstring;
  processingTime : N;
  fetch : MailChannelsPayload -> fetch_result
}.

(** ** Effects

    A computation yields the collaborator calls it made, in order, and
    either a thrown value or a result.  Console logging is not modelled. *)

Inductive event :=
| GetReader
| ReleaseLock
| Fetch (payload : MailChannelsPayload).

Definition Eff (A : Type) : Type := (list event * (thrown + A))%type.

Definition ret {A} (a : A) : Eff A := ([], inr a).
Definition throw {A} (e : thrown) : Eff A := ([], inl e).
Definition emit (ev : event) : Eff unit := ([ev], inr tt).

Definition bind {A B} (m : Eff A) (f : A -> Eff B) : Eff B :=
  match m with
  | (evs, inl e) => (evs, inl e)
  | (evs, inr a) => let '(evs', r) := f a in (evs ++ evs', r)
  end.

(** [try { m } finally { fin }] *)
Definition try_finally {A} (m : Eff A) (fin : Eff unit) : Eff A :=
  let '(evs, r) := m in
  match fin with
  | (evs', inl e) => (evs ++ evs', inl e)
  | (evs', inr _) => (evs ++ evs', r)
  end.

(** [try { m } catch (e) { handler e }] *)
Definition try_catch {A} (m : Eff A) (handler : thrown -> Eff A) : Eff A :=
  match m with
  | (evs, inl e) => let '(evs', r) := handler e in (evs ++ evs', r)
  | (evs, inr a) => (evs, inr a)
  end.

Declare Scope eff_scope.
Notation "x <- m ;; k" := (bind m (fun x => k))
  (at level 61, m at next level, right associativity) : eff_scope.
Notation "m ;;; k" := (bind m (fun _ => k))
  (at level 61, right associativity) : eff_scope.
Open Scope eff_scope.

Definition events {A} (m : Eff A) : list event := fst m.
Definition outcome {A} (m : Eff A) : thrown + A := snd m.

(** ** [parseEmailBody] *)

(** The read loop (lines 53-63): chunks are pushed in arrival order until
    the reader reports the end; a failed read throws. *)
Fixpoint read_chunks (s : ReadableStream) (chunks : list (list byte))
  : Eff (list (list byte)) :=
  match s with
  | StreamEnd => ret chunks
  | StreamFail e => throw e
  | StreamChunk value rest => read_chunks rest (chunks ++ [value])
  end.

(** [chunks.reduce((acc, chunk) => acc + chunk.length, 0)] *)
Definition totalLength (chunks : list (list byte)) : nat :=
  fold_left (fun acc chunk => acc + length chunk) chunks 0.

(** The copying loop (lines 76-79). *)
Fixpoint copy_chunks (chunks : list (list byte)) (combined : Uint8Array.t)
         (offset : nat) : option Uint8Array.t :=
  match chunks with
  | [] => Some combined
  | chunk :: more =>
      match Uint8Array.set combined chunk offset with
      | Some combined' => copy_chunks more combined' (offset + length chunk)
      | None => None
      end
  end.

Definition combine (chunks : list (list byte)) : option Uint8Array.t :=
  copy_chunks chunks (Uint8Array.make (totalLength chunks)) 0.

Definition text_plain : jsstring := lit "text/plain".
Definition text_html : jsstring := lit "text/html".

(** The body of the loop over the multipart sections (lines 125-138);
    the state is the pair of the variables [textBody] and [htmlBody]. *)
Definition scan_section (acc : jsstring * jsstring) (section : jsstring)
  : jsstring * jsstring :=
  let part := trim section in
  if negb (truthy part) || str_eqb part (lit "--") then acc
  else
    let pieces := split_re re_blank_line part in
    let partHeaders := hd [] pieces in
    let partBody := trim (join [LF; LF] (tl pieces)) in
    if includes text_plain partHeaders then (partBody, snd acc)
    else if includes text_html partHeaders then (fst acc, partBody)
    else acc.

Definition scan_sections (parts : list jsstring) : jsstring * jsstring :=
  fold_left scan_section parts ([], []).

(** Lines 115-145: the multipart branch once a boundary has been found. *)
Definition disassemble (bodyContent boundary contentType : jsstring)
  : ParsedEmailContent :=
  let parts := split_str (lit "--" ++ boundary) bodyContent in
  let '(textBody, htmlBody) := scan_sections parts in
  {| textBody := or_else textBody (or_else htmlBody (trim bodyContent));
     htmlBody := if truthy htmlBody then Some htmlBody else None;
     contentType :=
       if truthy textBody then text_plain
       else if truthy htmlBody then text_html
       else contentType |}.

(** Lines 106-107. *)
Definition resolveContentType (H : Host) (headers : jsstring) : jsstring :=
  match exec re_content_type headers with
  | Some cap => toLowerCase H (trim cap)
  | None => text_plain
  end.

(** Lines 87-153: the parser on the decoded text. *)
Definition parseText (H : Host) (rawText : jsstring) : ParsedEmailContent :=
  let parts := split_re re_blank_line rawText in
  if length parts <? 2 then
    {| textBody := trim rawText; htmlBody := None; contentType := text_plain |}
  else
    let headers := hd [] parts in
    let bodyContent := join [LF; LF] (tl parts) in
    let contentType := resolveContentType H headers in
    let single :=
      {| textBody := trim bodyContent; htmlBody := None;
         contentType := contentType |} in
    if includes (lit "multipart") contentType then
      match exec re_boundary headers with
      | Some cap => disassemble bodyContent (remove_class isQuote cap) contentType
      | None => single
      end
    else single.

Definition rangeError : thrown := ErrorValue (lit "offset is out of bounds").

Definition parseEmailBody (H : Host) (rawStream : ReadableStream)
  : Eff ParsedEmailContent :=
  emit GetReader ;;;
  chunks <- try_finally (read_chunks rawStream []) (emit ReleaseLock) ;;
  match combine chunks with
  | None => throw rangeError
  | Some combined => ret (parseText H (Utf8.decode combined))
  end.

(** ** [forwardEmail] *)

Definition name_truthy (a : EmailAddress) : bool :=
  match name a with Some n => truthy n | None => false end.

Definition name_text (a : EmailAddress) : jsstring :=
  match name a with Some n => n | None => [] end.

(** [addr.name ? `${addr.name} <${addr.email}>` : addr.email] *)
Definition textAddress (a : EmailAddress) : jsstring :=
  if name_truthy a then name_text a ++ lit " <" ++ email a ++ lit ">"
  else email a.

(** [addr.name ? `${addr.name} &lt;${addr.email}&gt;` : addr.email] *)
Definition htmlAddress (a : EmailAddress) : jsstring :=
  if name_truthy a then name_text a ++ lit " &lt;" ++ email a ++ lit "&gt;"
  else email a.

Definition quote : jsstring := [34%N].

(** Lines 177-185. *)
Definition textContent (H : Host) (message : EmailMessage)
           (parsedContent : ParsedEmailContent) : jsstring :=
  trim ([LF] ++ lit "---------- Forwarded Message ----------" ++ [LF]
        ++ lit "From: " ++ textAddress (from message) ++ [LF]
        ++ lit "To: " ++ join (lit ", ") (map textAddress (to message)) ++ [LF]
        ++ lit "Subject: " ++ subject message ++ [LF]
        ++ lit "Date: " ++ isoText H ++ [LF]
        ++ [LF]
        ++ textBody parsedContent ++ [LF]
        ++ lit "  ").

(** The header block of the HTML envelope (lines 199-205). *)
Definition htmlHeaderBlock (H : Host) (message : EmailMessage) : jsstring :=
  lit "<div style=" ++ quote
  ++ lit "border-bottom: 2px solid #ccc; padding-bottom: 10px; margin-bottom: 20px;"
  ++ quote ++ lit ">" ++ [LF]
  ++ lit "<h3>Forwarded Message</h3>" ++ [LF]
  ++ lit "<p><strong>From:</strong> " ++ htmlAddress (from message)
  ++ lit "</p>" ++ [LF]
  ++ lit "<p><strong>To:</strong> "
  ++ join (lit ", ") (map htmlAddress (to message)) ++ lit "</p>" ++ [LF]
  ++ lit "<p><strong>Subject:</strong> " ++ subject message ++ lit "</p>" ++ [LF]
  ++ lit "<p><strong>Date:</strong> " ++ isoHtml H ++ lit "</p>" ++ [LF]
  ++ lit "</div>" ++ [LF].

(** The text of the HTML template between its first and last line breaks
    (lines 195-208). *)
Definition htmlDocument (H : Host) (message : EmailMessage)
           (html : jsstring) : jsstring :=
  lit "<!DOCTYPE html>" ++ [LF]
  ++ lit "<html>" ++ [LF]
  ++ lit "<head><title>Forwarded Message</title></head>" ++ [LF]
  ++ lit "<body>" ++ [LF]
  ++ htmlHeaderBlock H message
  ++ lit "<div>" ++ html ++ lit "</div>" ++ [LF]
  ++ lit "</body>" ++ [LF]
  ++ lit "</html>".

(** Lines 194-209: the template literal, trimmed. *)
Definition htmlContent (H : Host) (message : EmailMessage)
           (html : jsstring) : jsstring :=
  trim ([LF] ++ htmlDocument H message html ++ [LF] ++ lit "    ").

(** Lines 174-215: the [content] array. *)
Definition composeContent (H : Host) (message : EmailMessage)
           (parsedContent : ParsedEmailContent) : list ContentPart :=
  let content := [] in
  let content :=
    content ++ [{| type := text_plain;
                   value := textContent H message parsedContent |}] in
  match htmlBody parsedContent with
  | Some html =>
      if truthy html then
        content ++ [{| type := text_html;
                       value := htmlContent H message html |}]
      else content
  | None => content
  end.

(** Lines 217-227. *)
Definition buildPayload (H : Host) (message : EmailMessage)
           (forwardToEmail : jsstring) (parsedContent : ParsedEmailContent)
  : MailChannelsPayload :=
  {| personalizations :=
       [{| personalization_to :=
             [{| email := forwardToEmail; name := None |}] |}];
     payload_from :=
       {| email := email (from message);
          name := if name_truthy (from message) then name (from message)
                  else None |};
     payload_subject := lit "[Forwarded] " ++ subject message;
     content := composeContent H message parsedContent |}.

(** Lines 249-279: the POST and the reading of its response.  The body is
    read with [await response.text()] on both branches (lines 264 and 271),
    inside the [try]; when that throws, the value is caught and thrown
    again. *)
Definition send (H : Host) (payload : MailChannelsPayload) : Eff unit :=
  try_catch
    (emit (Fetch payload) ;;;
     match fetch H payload with
     | Rejected e => throw e
     | Unreadable _ e => throw e
     | Responded response =>
         if negb (ok response) then
           let errorText := response_text response in
           throw (ErrorValue (lit "MailChannels API failed: "
                              ++ number_toString (response_status response)
                              ++ lit " - " ++ errorText))
         else ret tt
     end)
    (fun fetchError => throw fetchError).

Definition forwardEmail (H : Host) (message : EmailMessage)
           (forwardToEmail : jsstring) : Eff unit :=
  parsedContent <- parseEmailBody H (raw message) ;;
  send H (buildPayload H message forwardToEmail parsedContent).

(** ** The exported handler *)

Module Worker.

Definition ms (n : N) : jsstring := number_toString n ++ lit "ms".

Definition configurationError : Response :=
  {| status := 500;
     body := lit "Configuration error: FORWARD_TO_EMAIL environment variable not set";
     headers := [(lit "Content-Type", text_plain)] |}.

Definition success (H : Host) : Response :=
  {| status := 200;
     body := lit "Email processed and forwarded successfully";
     headers := [(lit "Content-Type", text_plain);
                 (lit "X-Session-ID", sessionId H);
                 (lit "X-Processing-Time", ms (processingTime H))] |}.

Definition failure (H : Host) (error : thrown) : Response :=
  {| status := 500;
     body := lit "Email processing failed: "
             ++ match error with
                | ErrorValue message => message
                | OtherValue => lit "Unknown error"
                end;
     headers := [(lit "Content-Type", text_plain);
                 (lit "X-Session-ID", sessionId H);
                 (lit "X-Processing-Time", ms (processingTime H));
                 (lit "X-Error", lit "true")] |}.

(** [!env.FORWARD_TO_EMAIL] is true for an unbound variable and for the
    empty string. *)
Definition forwardAddress (env : Env) : option jsstring :=
  match FORWARD_TO_EMAIL env with
  | Some a => if truthy a then Some a else None
  | None => None
  end.

(** Lines 312-370. *)
Definition email (H : Host) (message : EmailMessage) (env : Env)
  : Eff Response :=
  try_catch
    (match forwardAddress env with
     | None => ret configurationError
     | Some forwardTo =>
         forwardEmail H message forwardTo ;;;
         ret (success H)
     end)
    (fun error => ret (failure H error)).

End Worker.

(** ** Vocabulary of the specification *)

(** A stream that delivers the given chunks and then ends. *)
Definition stream_of (chunks : list (list byte)) : ReadableStream :=
  fold_right StreamChunk StreamEnd chunks.

(** The Byte Assembler: the text decoded from the combined buffer. *)
Definition assemble (chunks : list (list byte)) : option jsstring :=
  option_map Utf8.decode (combine chunks).

(** A multipart section is skipped by the loop when it trims to nothing or
    to the terminator marker. *)
Definition skipped (section : jsstring) : bool :=
  negb (truthy (trim section)) || str_eqb (trim section) (lit "--").

Definition sectionHeaders (section : jsstring) : jsstring :=
  hd [] (split_re re_blank_line (trim section)).

Definition sectionBody (section : jsstring) : jsstring :=
  trim (join [LF; LF] (tl (split_re re_blank_line (trim section)))).

(** The header fragment of a section that is not skipped contains the
    given type. *)
Definition declares (ty section : jsstring) : bool :=
  negb (skipped section) && includes ty (sectionHeaders section).

(** How the loop classifies a section: [text/plain] is tested first. *)
Definition is_plain (section : jsstring) : bool := declares text_plain section.

Definition is_html (section : jsstring) : bool :=
  declares text_html section && negb (declares text_plain section).

(** The body fragment of the last section of a kind, empty when there is
    none. *)
Definition last_body (kind : jsstring -> bool) (parts : list jsstring)
  : jsstring :=
  match find kind (rev parts) with
  | Some section => sectionBody section
  | None => []
  end.

(** The sections of a multipart body. *)
Definition sections (bodyContent boundary : jsstring) : list jsstring :=
  split_str (lit "--" ++ boundary) bodyContent.

(** The body block of a decoded text: everything when there is no blank
    line, else what follows the header block. *)
Definition bodyBlock (rawText : jsstring) : jsstring :=
  let parts := split_re re_blank_line rawText in
  if length parts <? 2 then rawText else join [LF; LF] (tl parts).

(** Case-insensitive occurrence of an ASCII text. *)
Fixpoint ci_startsWith (pat s : jsstring) : bool :=
  match pat, s with
  | [], _ => true
  | p :: pat', c :: s' => ci p c && ci_startsWith pat' s'
  | _ :: _, [] => false
  end.

Fixpoint ci_includes (pat s : jsstring) : bool :=
  ci_startsWith pat s ||
  match s with
  | [] => false
  | _ :: t => ci_includes pat t
  end.

(** The content parts of a given type. *)
Definition parts_of_type (ty : jsstring) (content : list ContentPart)
  : list ContentPart :=
  filter (fun part => str_eqb (type part) ty) content.

Definition is_fetch (ev : event) : bool :=
  match ev with Fetch _ => true | _ => false end.

(** Modelled from the spec: the HTML escaping of [&], [<] and [>] that the
    specification attributes to the header block of the HTML envelope; the
    source has no such function. *)
Definition escapeHtml (s : jsstring) : jsstring :=
  flat_map (fun c =>
    if (c =? 38)%N then lit "&amp;"
    else if (c =? 60)%N then lit "&lt;"
    else if (c =? 62)%N then lit "&gt;"
    else [c]) s.

(** The chunks a stream delivers before it ends or fails, and the value
    its reader throws when it fails. *)
Fixpoint stream_chunks (s : ReadableStream) : list (list byte) :=
  match s with
  | StreamEnd => []
  | StreamFail _ => []
  | StreamChunk value rest => value :: stream_chunks rest
  end.

Fixpoint stream_error (s : ReadableStream) : option thrown :=
  match s with
  | StreamEnd => None
  | StreamFail e => Some e
  | StreamChunk _ rest => stream_error rest
  end.

(** [error instanceof Error ? error.message : 'Unknown error'] (line 361). *)
Definition error_text (e : thrown) : jsstring :=
  match e with
  | ErrorValue message => message
  | OtherValue => lit "Unknown error"
  end.

(** A string that [trim] leaves as it is. *)
Definition trimmed (s : jsstring) : Prop := trim s = s.

(** The four texts matched by the blank-line pattern. *)
Definition blank_lines : list jsstring :=
  [[LF; LF]; [LF; CR; LF]; [CR; LF; LF]; [CR; LF; CR; LF]].

(** The text is empty or begins with a character outside the class. *)
Definition stops (p : code_unit -> bool) (s : jsstring) : bool :=
  match s with
  | [] => true
  | c :: _ => negb (p c)
  end.

(** In [pre ++ s], the ASCII text [pat] does not begin, in any letter
    case, at a position inside [pre]. *)
Definition not_before (pat pre s : jsstring) : bool :=
  forallb (fun n => negb (ci_startsWith pat (skipn n (pre ++ s))))
          (seq 0 (length pre)).

(** ** Concrete inputs *)

Module Examples.

Definition ascii_lower (c : code_unit) : code_unit :=
  if ((65 <=? c) && (c <=? 90))%N then (c + 32)%N else c.

(** A host whose lower-casing is the platform's on ASCII text (all the
    examples are ASCII) and whose network answers with the status and
    text given. *)
Definition host (st : N) (text : jsstring) : Host :=
  {| toLowerCase := map ascii_lower;
     isoText := lit "2024-01-01T00:00:00.000Z";
     isoHtml := lit "2024-01-01T00:00:00.001Z";
     sessionId := lit "email_1704067200000_abc123xyz";
     processingTime := 12;
     fetch := fun _ => Responded {| response_status := st;
                                    response_text := text |} |}.

Definition bytes (s : string) : list byte := list_byte_of_string s.

Definition crlf : jsstring := [CR; LF].

(** Sections: [text/plain] with body Hello, [text/plain] without a body,
    [text/html] with a body. *)
Definition emptied_plain : jsstring :=
  lit "--B" ++ [LF] ++ lit "Content-Type: text/plain" ++ [LF; LF]
  ++ lit "Hello" ++ [LF]
  ++ lit "--B" ++ [LF] ++ lit "Content-Type: text/plain" ++ [LF]
  ++ lit "--B" ++ [LF] ++ lit "Content-Type: text/html" ++ [LF; LF]
  ++ lit "<b>Hi</b>" ++ [LF]
  ++ lit "--B--".

(** Sections: [text/plain] with body One, then [text/plain] without a
    body. *)
Definition two_plain_last_empty : jsstring :=
  lit "--B" ++ [LF] ++ lit "Content-Type: text/plain" ++ [LF; LF]
  ++ lit "One" ++ [LF]
  ++ lit "--B" ++ [LF] ++ lit "Content-Type: text/plain" ++ [LF]
  ++ lit "--B--".

(** Sections: [text/html] with a body, then a [text/plain] section whose
    header also names [text/html]. *)
Definition html_then_mixed : jsstring :=
  lit "--B" ++ [LF] ++ lit "Content-Type: text/html" ++ [LF; LF]
  ++ lit "<i>x</i>" ++ [LF]
  ++ lit "--B" ++ [LF]
  ++ lit "Content-Type: text/plain; alt=text/html" ++ [LF; LF]
  ++ lit "y" ++ [LF]
  ++ lit "--B--".

(** The round-trip scenario of the specification. *)
Definition round_trip : jsstring :=
  lit "Content-Type: multipart/mixed; boundary=XYZ" ++ crlf ++ crlf
  ++ lit "--XYZ" ++ crlf ++ lit "Content-Type: text/plain" ++ crlf ++ crlf
  ++ lit "Hello" ++ crlf
  ++ lit "--XYZ" ++ crlf ++ lit "Content-Type: text/html" ++ crlf ++ crlf
  ++ lit "<b>Hi</b>" ++ crlf
  ++ lit "--XYZ--".

Definition only_html : jsstring :=
  lit "--B" ++ [LF] ++ lit "Content-Type: text/html" ++ [LF; LF]
  ++ lit "<p>x</p>" ++ [LF] ++ lit "--B--".

Definition no_boundary : jsstring :=
  lit "Content-Type: multipart/alternative" ++ crlf ++ crlf
  ++ lit "  body text  ".

Definition sender : EmailAddress :=
  {| email := lit "rd@example.org"; name := Some (lit "R&D <b>") |}.

Definition message (stream : ReadableStream) : EmailMessage :=
  {| from := sender;
     to := [{| email := lit "in@example.org"; name := None |}];
     cc := None; bcc := None;
     subject := lit "Hi";
     raw := stream;
     rawSize := 0 |}.

Definition html_mail : list (list byte) :=
  [bytes "Content-Type: multipart/alternative; boun";
   bytes "dary=B"; [x0a; x0a];
   bytes "--B"; [x0a]; bytes "Content-Type: text/html"; [x0a; x0a];
   bytes "<p>x</p>"; [x0a]; bytes "--B--"].

(** A host whose network call fails with the value given. *)
Definition offline_host (e : thrown) : Host :=
  {| toLowerCase := map ascii_lower;
     isoText := lit "2024-01-01T00:00:00.000Z";
     isoHtml := lit "2024-01-01T00:00:00.001Z";
     sessionId := lit "email_1704067200000_abc123xyz";
     processingTime := 12;
     fetch := fun _ => Rejected e |}.

(** A host whose network answers with the status given and a body that
    cannot be read. *)
Definition unreadable_host (st : N) (e : thrown) : Host :=
  {| toLowerCase := map ascii_lower;
     isoText := lit "2024-01-01T00:00:00.000Z";
     isoHtml := lit "2024-01-01T00:00:00.001Z";
     sessionId := lit "email_1704067200000_abc123xyz";
     processingTime := 12;
     fetch := fun _ => Unreadable st e |}.

(** Sections: [text/plain] with body One, [text/plain] with body Two,
    [text/html] with body <i>a</i>, [text/html] with body <b>b</b>. *)
Definition two_of_each : jsstring :=
  lit "--B" ++ [LF] ++ lit "Content-Type: text/plain" ++ [LF; LF]
  ++ lit "One" ++ [LF]
  ++ lit "--B" ++ [LF] ++ lit "Content-Type: text/plain" ++ [LF; LF]
  ++ lit "Two" ++ [LF]
  ++ lit "--B" ++ [LF] ++ lit "Content-Type: text/html" ++ [LF; LF]
  ++ lit "<i>a</i>" ++ [LF]
  ++ lit "--B" ++ [LF] ++ lit "Content-Type: text/html" ++ [LF; LF]
  ++ lit "<b>b</b>" ++ [LF]
  ++ lit "--B--".

(** A stream whose second read fails. *)
Definition broken_stream : ReadableStream :=
  StreamChunk (bytes "Subject: x")
    (StreamFail (ErrorValue (lit "connection reset"))).

Definition configured : Env :=
  {| FORWARD_TO_EMAIL := Some (lit "to@example.org") |}.

(** A [text/html] message that is not multipart. *)
Definition single_html : jsstring :=
  lit "Content-Type: text/html; charset=utf-8" ++ [LF; LF]
  ++ lit "<p>x</p>" ++ [LF].

(** Sections: [text/plain] with body Hello, then an attachment. *)
Definition with_attachment : jsstring :=
  lit "--B" ++ [LF] ++ lit "Content-Type: text/plain" ++ [LF; LF]
  ++ lit "Hello" ++ [LF]
  ++ lit "--B" ++ [LF] ++ lit "Content-Type: application/pdf" ++ [LF; LF]
  ++ lit "JVBERi0=" ++ [LF]
  ++ lit "--B--".

End Examples.

(** * Properties *)

Arguments lit : simpl never.

(** ** Strings *)

Lemma str_eqb_eq (a b : jsstring) : str_eqb a b = true <-> a = b.
Proof.
  revert b; induction a as [|x a IH]; intros [|y b]; simpl;
    try (split; [discriminate | congruence]); try tauto.
  rewrite andb_true_iff, N.eqb_eq, IH.
  split; [intros [-> ->]; reflexivity | intros E; inversion E; auto].
Qed.

Lemma truthy_false (s : jsstring) : truthy s = false <-> s = [].
Proof. destruct s; simpl; split; congruence. Qed.

Lemma truthy_true (s : jsstring) : truthy s = true <-> s <> [].
Proof. destruct s; simpl; split; congruence. Qed.

Lemma or_else_nil (a b : jsstring) : or_else a b = [] -> b = [].
Proof.
  unfold or_else; destruct a; simpl; [auto | discriminate].
Qed.

Lemma dropWhile_all (p : code_unit -> bool) (ws rest : jsstring) :
  forallb p ws = true -> dropWhile p (ws ++ rest) = dropWhile p rest.
Proof.
  induction ws as [|c ws IH]; simpl; [reflexivity|].
  rewrite andb_true_iff; intros [-> Hws]; auto.
Qed.

Lemma trimEnd_keep (xs ws : jsstring) (c : code_unit) :
  isWhiteSpace c = false -> forallb isWhiteSpace ws = true ->
  trimEnd (xs ++ c :: ws) = xs ++ [c].
Proof.
  intros Hc Hws; unfold trimEnd.
  rewrite rev_app_distr; simpl rev; rewrite <- app_assoc.
  rewrite dropWhile_all by (rewrite forallb_forall in *; intros x Hx;
                            apply Hws, in_rev; exact Hx).
  simpl; rewrite Hc; simpl.
  rewrite rev_involutive; reflexivity.
Qed.

(** ** The Byte Assembler *)

Lemma totalLength_from (chunks : list (list byte)) (n : nat) :
  fold_left (fun acc chunk => acc + length chunk) chunks n
  = n + length (concat chunks).
Proof.
  revert n; induction chunks as [|c cs IH]; intros n; simpl; [lia|].
  rewrite IH, length_app; lia.
Qed.

Lemma totalLength_concat (chunks : list (list byte)) :
  totalLength chunks = length (concat chunks).
Proof. unfold totalLength; rewrite totalLength_from; reflexivity. Qed.

Lemma skipn_zeros (n k : nat) :
  skipn n (repeat x00 (n + k)) = repeat x00 k.
Proof. induction n as [|n IH]; simpl; auto. Qed.

Lemma set_in_zeros (done chunk : list byte) (k : nat) :
  Uint8Array.set (done ++ repeat x00 (length chunk + k)) chunk
                 (length done)
  = Some ((done ++ chunk) ++ repeat x00 k).
Proof.
  unfold Uint8Array.set.
  rewrite length_app, repeat_length.
  replace (length done + length chunk
           <=? length done + (length chunk + k)) with true
    by (symmetry; apply Nat.leb_le; lia).
  rewrite firstn_app, firstn_all, Nat.sub_diag; simpl firstn.
  rewrite skipn_app, (skipn_all2 done) by lia.
  replace (length done + length chunk - length done)
    with (length chunk) by lia.
  rewrite skipn_zeros.
  rewrite app_nil_r; simpl; rewrite <- app_assoc; reflexivity.
Qed.

Lemma copy_chunks_fills (chunks : list (list byte)) (done : list byte) :
  copy_chunks chunks (done ++ repeat x00 (length (concat chunks)))
              (length done)
  = Some (done ++ concat chunks).
Proof.
  revert done; induction chunks as [|c cs IH]; intros done; simpl.
  - reflexivity.
  - rewrite length_app, set_in_zeros.
    rewrite <- length_app, IH, app_assoc; reflexivity.
Qed.

Lemma combine_concat (chunks : list (list byte)) :
  combine chunks = Some (concat chunks).
Proof.
  unfold combine, Uint8Array.make; rewrite totalLength_concat.
  apply (copy_chunks_fills chunks []).
Qed.

Lemma read_chunks_stream_of (chunks got : list (list byte)) :
  read_chunks (stream_of chunks) got = ret (got ++ chunks).
Proof.
  revert got; induction chunks as [|c cs IH]; intros got; simpl.
  - rewrite app_nil_r; reflexivity.
  - rewrite IH, <- app_assoc; reflexivity.
Qed.

Lemma parseEmailBody_stream_of (H : Host) (chunks : list (list byte)) :
  parseEmailBody H (stream_of chunks)
  = ([GetReader; ReleaseLock],
     inr (parseText H (Utf8.decode (concat chunks)))).
Proof.
  unfold parseEmailBody.
  rewrite read_chunks_stream_of; simpl.
  rewrite combine_concat; reflexivity.
Qed.

(** Whatever the stream, a result of the parser is the parse of some
    decoded text. *)
Lemma parseEmailBody_result (H : Host) (s : ReadableStream)
      (r : ParsedEmailContent) :
  outcome (parseEmailBody H s) = inr r ->
  exists chunks,
    parseEmailBody H s
    = ([GetReader; ReleaseLock],
       inr (parseText H (Utf8.decode (concat chunks))))
    /\ r = parseText H (Utf8.decode (concat chunks)).
Proof.
  unfold parseEmailBody.
  assert (G : forall got,
             (exists e, read_chunks s got = ([], inl e))
             \/ (exists cs, read_chunks s got = ([], inr cs))).
  { induction s as [|e|v rest IH]; intros got; simpl.
    - right; exists got; reflexivity.
    - left; exists e; reflexivity.
    - apply IH. }
  destruct (G []) as [[e E]|[cs E]]; rewrite E; simpl.
  - discriminate.
  - rewrite combine_concat; simpl; intros Hr; exists cs.
    split; [reflexivity | congruence].
Qed.

(** C10.  Chunk-size independence: two chunkings of the same bytes give
    the Byte Assembler the same text (the decoding of the concatenated
    bytes), and the parser the same result with the same reader calls. *)
Theorem chunking_independent (H : Host) (cs1 cs2 : list (list byte)) :
  concat cs1 = concat cs2 ->
  assemble cs1 = Some (Utf8.decode (concat cs1))
  /\ assemble cs1 = assemble cs2
  /\ parseEmailBody H (stream_of cs1) = parseEmailBody H (stream_of cs2).
Proof.
  intros E; unfold assemble.
  rewrite !combine_concat, !parseEmailBody_stream_of, E; auto.
Qed.

(** The euro sign, whole and cut after its first byte. *)
Lemma chunking_independent_witness :
  concat [[xe2]; [x82; xac]] = concat [[xe2; x82; xac]]
  /\ (assemble [[xe2]; [x82; xac]] = Some (Utf8.decode [xe2; x82; xac])
      /\ assemble [[xe2]; [x82; xac]] = assemble [[xe2; x82; xac]]
      /\ parseEmailBody (Examples.host 200 []) (stream_of [[xe2]; [x82; xac]])
         = parseEmailBody (Examples.host 200 []) (stream_of [[xe2; x82; xac]])).
Proof.
  split; [reflexivity|].
  apply (chunking_independent (Examples.host 200 [])
           [[xe2]; [x82; xac]] [[xe2; x82; xac]]).
  reflexivity.
Defined.

(** ** Splitting *)

Lemma split_go_no_match (matcher : jsstring -> option nat) (s cur : jsstring) :
  (forall n, matcher (skipn n s) = None) ->
  split_go matcher s 0 cur = [rev cur ++ s].
Proof.
  revert cur; induction s as [|c t IH]; intros cur Hno; simpl.
  - rewrite app_nil_r; reflexivity.
  - pose proof (Hno 0) as E; simpl in E; rewrite E.
    rewrite IH by (intros n; apply (Hno (S n))).
    simpl; rewrite <- app_assoc; reflexivity.
Qed.

Lemma includes_tail (pat s : jsstring) (c : code_unit) :
  includes pat s = true -> includes pat (c :: s) = true.
Proof. intros E; simpl; rewrite E; apply orb_true_r. Qed.

Lemma includes_skipn (pat s : jsstring) (n : nat) :
  includes pat (skipn n s) = true -> includes pat s = true.
Proof.
  revert s; induction n as [|n IH]; intros s; simpl; [auto|].
  destruct s as [|c t]; [auto|].
  intros E; apply includes_tail, IH, E.
Qed.

(** A match of the blank-line pattern is an occurrence of LF LF or of
    LF CR LF, possibly after a CR. *)
Lemma blank_line_found (t : jsstring) :
  match_len re_blank_line t <> None ->
  includes [LF; LF] t = true \/ includes [LF; CR; LF] t = true.
Proof.
  unfold match_len, re_blank_line, chr, LF, CR.
  destruct t as [|a [|b [|c [|d t]]]]; simpl;
    repeat match goal with
           | |- context [N.eqb ?x ?y] =>
               is_var x; destruct (N.eqb_spec x y); subst; simpl
           end;
    try (intros F; exfalso; apply F; reflexivity);
    intros _; auto.
Qed.

Lemma no_blank_line_split (text : jsstring) :
  includes [LF; LF] text = false ->
  includes [LF; CR; LF] text = false ->
  split_re re_blank_line text = [text].
Proof.
  intros H1 H2; unfold split_re, split_with.
  apply (split_go_no_match (match_len re_blank_line) text []).
  intros n.
  destruct (match_len re_blank_line (skipn n text)) eqn:E; [|reflexivity].
  destruct (blank_line_found (skipn n text)) as [F|F];
    [congruence | apply includes_skipn in F | apply includes_skipn in F];
    congruence.
Qed.

(** C3.  A decoded text without a blank line (no LF LF and no LF CR LF,
    hence no doubled line terminator of either kind) is returned trimmed as
    [textBody], with content type [text/plain] and no [htmlBody], whatever
    headers or multipart markers it contains. *)
Theorem no_blank_line_fallback (H : Host) (rawText : jsstring) :
  includes [LF; LF] rawText = false ->
  includes [LF; CR; LF] rawText = false ->
  parseText H rawText
  = {| textBody := trim rawText; htmlBody := None;
       contentType := text_plain |}.
Proof.
  intros H1 H2; unfold parseText.
  rewrite (no_blank_line_split _ H1 H2); reflexivity.
Qed.

Lemma no_blank_line_fallback_witness :
  let text := lit "Content-Type: multipart/mixed; boundary=B" ++ [CR; LF]
              ++ lit "--B " in
  includes [LF; LF] text = false
  /\ includes [LF; CR; LF] text = false
  /\ parseText (Examples.host 200 []) text
     = {| textBody := lit "Content-Type: multipart/mixed; boundary=B"
                      ++ [CR; LF] ++ lit "--B";
          htmlBody := None; contentType := text_plain |}.
Proof.
  split; [reflexivity|]. split; [reflexivity|].
  rewrite (no_blank_line_fallback (Examples.host 200 [])
             (lit "Content-Type: multipart/mixed; boundary=B" ++ [CR; LF]
              ++ lit "--B "));
    reflexivity.
Defined.

(** ** Header parameters *)

Lemma ci_literal_match (pat : jsstring) (r : regex) (s : jsstring)
      (x : jsstring * jsstring) :
  match_here (map (fun p => One (ci p)) pat ++ r) s = Some x ->
  ci_startsWith pat s = true.
Proof.
  revert s; induction pat as [|p pat IH]; intros s; simpl; [reflexivity|].
  destruct s as [|c s]; [discriminate|].
  destruct (ci p c); [apply IH | discriminate].
Qed.

Lemma exec_ci_literal (pat : string) (r : regex) (s : jsstring) :
  ci_includes (lit pat) s = false -> exec (ci_lit pat ++ r) s = None.
Proof.
  unfold ci_lit.
  induction s as [|c s IH]; simpl; rewrite orb_false_iff; intros [E1 E2];
    (destruct (match_here (map (fun p => One (ci p)) (lit pat) ++ r) _)
       as [[cap rest]|] eqn:M;
     [apply ci_literal_match in M; simpl in M; congruence|]);
    auto.
Qed.

Lemma split_length_two (parts rest : list jsstring) (headers : jsstring) :
  parts = headers :: rest -> rest <> [] -> (length parts <? 2) = false.
Proof.
  intros -> Hr; destruct rest; [congruence|reflexivity].
Qed.

(** C4.  When the header block declares a multipart type but contains no
    [boundary=] (in any letter case), nothing is disassembled: [textBody]
    is the trimmed body block, there is no [htmlBody] and the content type
    is the declared one. *)
Theorem multipart_without_boundary (H : Host) (rawText headers : jsstring)
        (rest : list jsstring) :
  split_re re_blank_line rawText = headers :: rest ->
  rest <> [] ->
  includes (lit "multipart") (resolveContentType H headers) = true ->
  ci_includes (lit "boundary=") headers = false ->
  parseText H rawText
  = {| textBody := trim (join [LF; LF] rest); htmlBody := None;
       contentType := resolveContentType H headers |}
  /\ bodyBlock rawText = join [LF; LF] rest.
Proof.
  intros Hs Hr Hm Hb; unfold parseText, bodyBlock.
  rewrite (split_length_two _ _ _ Hs Hr), Hs; simpl hd; simpl tl.
  rewrite Hm.
  unfold re_boundary; rewrite (exec_ci_literal _ _ _ Hb); auto.
Qed.

Lemma multipart_without_boundary_witness :
  split_re re_blank_line Examples.no_boundary
  = [lit "Content-Type: multipart/alternative"; lit "  body text  "]
  /\ parseText (Examples.host 200 []) Examples.no_boundary
     = {| textBody := lit "body text"; htmlBody := None;
          contentType := lit "multipart/alternative" |}.
Proof.
  split; [reflexivity|].
  destruct (multipart_without_boundary (Examples.host 200 [])
              Examples.no_boundary
              (lit "Content-Type: multipart/alternative")
              [lit "  body text  "]) as [E _];
    [reflexivity | discriminate | reflexivity | reflexivity |].
  rewrite E; reflexivity.
Defined.

(** ** The multipart scan *)

Lemma scan_section_kind (acc : jsstring * jsstring) (section : jsstring) :
  scan_section acc section
  = if is_plain section then (sectionBody section, snd acc)
    else if is_html section then (fst acc, sectionBody section)
    else acc.
Proof.
  unfold scan_section, is_html, is_plain, declares, skipped,
    sectionBody, sectionHeaders.
  destruct (negb (truthy (trim section)) || str_eqb (trim section) (lit "--"));
    simpl; [reflexivity|].
  destruct (includes text_plain _); simpl; [reflexivity|].
  destruct (includes text_html _); reflexivity.
Qed.

Lemma plain_not_html (section : jsstring) :
  is_plain section = true -> is_html section = false.
Proof.
  unfold is_html, is_plain; intros ->; apply andb_false_r.
Qed.

Lemma last_body_snoc (kind : jsstring -> bool) (parts : list jsstring)
      (x : jsstring) :
  last_body kind (parts ++ [x])
  = if kind x then sectionBody x else last_body kind parts.
Proof.
  unfold last_body; rewrite rev_app_distr; simpl.
  destruct (kind x); reflexivity.
Qed.

(** After the loop, each variable holds the body fragment of the last
    section of its kind, or the empty string it started with. *)
Lemma scan_sections_last (parts : list jsstring) :
  scan_sections parts = (last_body is_plain parts, last_body is_html parts).
Proof.
  unfold scan_sections.
  induction parts as [|x parts IH] using rev_ind; [reflexivity|].
  rewrite fold_left_app, IH; simpl.
  rewrite scan_section_kind, !last_body_snoc; simpl.
  destruct (is_plain x) eqn:P.
  - rewrite (plain_not_html _ P); reflexivity.
  - destruct (is_html x); reflexivity.
Qed.

Lemma find_skips (kind : jsstring -> bool) (l1 l2 : list jsstring) :
  existsb kind l1 = false -> find kind (l1 ++ l2) = find kind l2.
Proof.
  induction l1 as [|x l1 IH]; simpl; [reflexivity|].
  rewrite orb_false_iff; intros [-> E]; auto.
Qed.

Lemma existsb_reversed (kind : jsstring -> bool) (l : list jsstring) :
  existsb kind (rev l) = existsb kind l.
Proof.
  induction l as [|x l IH]; simpl; [reflexivity|].
  rewrite existsb_app, IH; simpl; rewrite orb_false_r; apply orb_comm.
Qed.

Lemma last_body_last (kind : jsstring -> bool) (pre post : list jsstring)
      (s : jsstring) :
  kind s = true -> existsb kind post = false ->
  last_body kind (pre ++ s :: post) = sectionBody s.
Proof.
  intros Hs Hp; unfold last_body.
  rewrite rev_app_distr; simpl; rewrite <- app_assoc.
  rewrite find_skips by (rewrite existsb_reversed; exact Hp).
  simpl; rewrite Hs; reflexivity.
Qed.

Lemma disassemble_resolved (bodyContent boundary contentType : jsstring) :
  disassemble bodyContent boundary contentType
  = let plain := last_body is_plain (sections bodyContent boundary) in
    let html := last_body is_html (sections bodyContent boundary) in
    {| textBody := or_else plain (or_else html (trim bodyContent));
       htmlBody := if truthy html then Some html else None;
       contentType :=
         if truthy plain then text_plain
         else if truthy html then text_html
         else contentType |}.
Proof.
  unfold disassemble, sections; rewrite scan_sections_last; reflexivity.
Qed.

(** C1 (as the code has it).  For every multipart body disassembled with a
    boundary token, with the candidates being the body fragments of the
    last section classified [text/plain] and of the last one classified
    [text/html] (empty when there is none): [textBody] is the plain-text
    candidate when it is not empty, else the HTML candidate when it is not
    empty, else the trimmed body block; [contentType] is [text/plain],
    [text/html] or the declared type by the same tests; and when the
    plain-text candidate is empty and the HTML one is not, [textBody] is
    the HTML candidate and [contentType] is [text/html]. *)
Theorem resolution_chain (bodyContent boundary declared : jsstring) :
  let plain := last_body is_plain (sections bodyContent boundary) in
  let html := last_body is_html (sections bodyContent boundary) in
  let r := disassemble bodyContent boundary declared in
  textBody r = (if truthy plain then plain
                else if truthy html then html
                else trim bodyContent)
  /\ htmlBody r = (if truthy html then Some html else None)
  /\ contentType r = (if truthy plain then text_plain
                      else if truthy html then text_html
                      else declared)
  /\ (plain = [] -> html <> [] ->
      textBody r = html /\ htmlBody r = Some html
      /\ contentType r = text_html).
Proof.
  intros plain html r; subst r; rewrite disassemble_resolved.
  fold plain; fold html; simpl; unfold or_else.
  split; [reflexivity|]. split; [reflexivity|]. split; [reflexivity|].
  intros Hp Hh; apply truthy_false in Hp; apply truthy_true in Hh.
  rewrite Hp, Hh; auto.
Qed.

Lemma resolution_chain_witness :
  last_body is_plain (sections Examples.only_html (lit "B")) = []
  /\ last_body is_html (sections Examples.only_html (lit "B")) = lit "<p>x</p>"
  /\ textBody (disassemble Examples.only_html (lit "B") (lit "multipart/mixed"))
     = lit "<p>x</p>"
  /\ contentType (disassemble Examples.only_html (lit "B")
                    (lit "multipart/mixed"))
     = text_html.
Proof.
  split; [reflexivity|]. split; [reflexivity|].
  destruct (resolution_chain Examples.only_html (lit "B")
              (lit "multipart/mixed")) as (_ & _ & _ & Honly).
  destruct Honly as (Ht & _ & Hc); [reflexivity | discriminate |].
  rewrite Ht, Hc; split; reflexivity.
Defined.

(** C1, as stated, fails: two sections declare [text/plain], the first
    with the body Hello, yet the resolved [contentType] is [text/html], not
    [text/plain], and the resolved [textBody] is the HTML candidate, not
    the body fragment of either [text/plain] section: the second one has no
    body and empties the candidate. *)
Lemma plain_found_but_html_resolved :
  let text := lit "Content-Type: multipart/mixed; boundary=B" ++ [LF; LF]
              ++ Examples.emptied_plain in
  let r := parseText (Examples.host 200 []) text in
  bodyBlock text = Examples.emptied_plain
  /\ map is_plain (sections Examples.emptied_plain (lit "B"))
     = [false; true; true; false; false]
  /\ map sectionBody (sections Examples.emptied_plain (lit "B"))
     = [[]; lit "Hello"; []; lit "<b>Hi</b>"; []]
  /\ r = {| textBody := lit "<b>Hi</b>"; htmlBody := Some (lit "<b>Hi</b>");
            contentType := text_html |}
  /\ contentType r <> text_plain
  /\ textBody r <> lit "Hello"
  /\ textBody r <> [].
Proof.
  repeat split; try (vm_compute; reflexivity); vm_compute; discriminate.
Qed.

(** C2 (as the code has it).  In a disassembled multipart body, when the
    last section classified [text/plain] (not skipped, header fragment
    containing [text/plain]) has a body fragment that is not empty, that
    fragment is the resolved [textBody]; when the last section classified
    [text/html] (not skipped, header fragment containing [text/html] and
    not [text/plain]) has a body fragment that is not empty, that fragment
    is the resolved [htmlBody].  Earlier sections of the kind are
    overwritten. *)
Theorem last_section_wins (bodyContent boundary declared : jsstring)
        (pre post : list jsstring) (s : jsstring) :
  sections bodyContent boundary = pre ++ s :: post ->
  let r := disassemble bodyContent boundary declared in
  (is_plain s = true -> existsb is_plain post = false ->
   sectionBody s <> [] ->
   textBody r = sectionBody s /\ contentType r = text_plain)
  /\ (is_html s = true -> existsb is_html post = false ->
      sectionBody s <> [] ->
      htmlBody r = Some (sectionBody s)).
Proof.
  intros Hs r; subst r; rewrite disassemble_resolved, Hs; simpl.
  split; intros Hk Hpost Hb; rewrite (last_body_last _ pre _ _ Hk Hpost);
    apply truthy_true in Hb; unfold or_else; rewrite Hb; auto.
Qed.

(** Two sections of each kind, all with a body: the second [text/plain]
    section overwrites the first, and the second [text/html] section
    overwrites the first. *)
Lemma last_section_wins_witness :
  map is_plain (sections Examples.two_of_each (lit "B"))
  = [false; true; true; false; false; false]
  /\ map is_html (sections Examples.two_of_each (lit "B"))
     = [false; false; false; true; true; false]
  /\ map sectionBody (sections Examples.two_of_each (lit "B"))
     = [[]; lit "One"; lit "Two"; lit "<i>a</i>"; lit "<b>b</b>"; []]
  /\ textBody (disassemble Examples.two_of_each (lit "B")
                 (lit "multipart/mixed")) = lit "Two"
  /\ contentType (disassemble Examples.two_of_each (lit "B")
                    (lit "multipart/mixed")) = text_plain
  /\ htmlBody (disassemble Examples.two_of_each (lit "B")
                 (lit "multipart/mixed")) = Some (lit "<b>b</b>").
Proof.
  pose (section := fun (ty body : string) =>
          [LF] ++ lit "Content-Type: " ++ lit ty ++ [LF; LF]
          ++ lit body ++ [LF]).
  pose (one := section "text/plain"%string "One"%string).
  pose (two := section "text/plain"%string "Two"%string).
  pose (a := section "text/html"%string "<i>a</i>"%string).
  pose (b := section "text/html"%string "<b>b</b>"%string).
  split; [reflexivity|]. split; [reflexivity|]. split; [reflexivity|].
  destruct (last_section_wins Examples.two_of_each (lit "B")
              (lit "multipart/mixed") [[]; one] [a; b; lit "--"] two eq_refl)
    as [Hp _].
  destruct Hp as [Ht Hc]; [reflexivity | reflexivity | discriminate |].
  destruct (last_section_wins Examples.two_of_each (lit "B")
              (lit "multipart/mixed") [[]; one; two; a] [lit "--"] b eq_refl)
    as [_ Hh].
  rewrite Ht, Hc, Hh; [repeat split | reflexivity | reflexivity | discriminate].
Defined.

(** C2, as stated, fails.  First body: two sections declare [text/plain],
    the last of them has the empty body fragment, and the resolved
    [textBody] is not that fragment but the trimmed body block.  Second
    body: two sections have [text/html] in their header fragment, the last
    of them (body y) also has [text/plain] there, and the resolved
    [htmlBody] is the body of the earlier one. *)
Lemma last_section_not_resolved :
  (map is_plain (sections Examples.two_plain_last_empty (lit "B"))
   = [false; true; true; false]
   /\ map sectionBody (sections Examples.two_plain_last_empty (lit "B"))
      = [[]; lit "One"; []; []]
   /\ textBody (disassemble Examples.two_plain_last_empty (lit "B")
                  (lit "multipart/mixed"))
      = Examples.two_plain_last_empty
   /\ textBody (disassemble Examples.two_plain_last_empty (lit "B")
                  (lit "multipart/mixed")) <> [])
  /\ (map (declares text_html) (sections Examples.html_then_mixed (lit "B"))
      = [false; true; true; false]
      /\ map sectionBody (sections Examples.html_then_mixed (lit "B"))
         = [[]; lit "<i>x</i>"; lit "y"; []]
      /\ htmlBody (disassemble Examples.html_then_mixed (lit "B")
                     (lit "multipart/mixed"))
         = Some (lit "<i>x</i>")
      /\ htmlBody (disassemble Examples.html_then_mixed (lit "B")
                     (lit "multipart/mixed"))
         <> Some (lit "y")).
Proof.
  split; (split; [reflexivity|]); (split; [reflexivity|]);
    (split; [reflexivity | vm_compute; discriminate]).
Qed.

(** The two parsing scenarios of the specification. *)
Example round_trip_scenario :
  parseText (Examples.host 200 []) Examples.round_trip
  = {| textBody := lit "Hello"; htmlBody := Some (lit "<b>Hi</b>");
       contentType := text_plain |}.
Proof. vm_compute; reflexivity. Qed.

Example just_text_scenario :
  parseText (Examples.host 200 []) (lit "just text")
  = {| textBody := lit "just text"; htmlBody := None;
       contentType := text_plain |}.
Proof. vm_compute; reflexivity. Qed.

(** ** The invariant of the decoded content *)

Lemma textBody_empty (H : Host) (rawText : jsstring) :
  textBody (parseText H rawText) = [] -> trim (bodyBlock rawText) = [].
Proof.
  unfold parseText, bodyBlock.
  destruct (length (split_re re_blank_line rawText) <? 2); simpl; [auto|].
  destruct (includes (lit "multipart") _); simpl; [|auto].
  destruct (exec re_boundary _); simpl; [|auto].
  unfold disassemble; destruct (scan_sections _) as [t h]; simpl.
  intros E; apply or_else_nil in E; apply or_else_nil in E; exact E.
Qed.

Lemma htmlBody_not_empty (H : Host) (rawText h : jsstring) :
  htmlBody (parseText H rawText) = Some h -> h <> [].
Proof.
  unfold parseText.
  destruct (length (split_re re_blank_line rawText) <? 2); simpl;
    [discriminate|].
  destruct (includes (lit "multipart") _); simpl; [|discriminate].
  destruct (exec re_boundary _); simpl; [|discriminate].
  unfold disassemble; destruct (scan_sections _) as [t h']; simpl.
  destruct h'; simpl; [discriminate|]; intros E; inversion E; discriminate.
Qed.

(** C7 (as the code has it).  For every chunked byte stream the parser
    returns a content whose [textBody] is not empty whenever the body block
    of the decoded text has a character that is not white space (its
    trimmed form is not empty), and whose [htmlBody], when present, is not
    empty. *)
Theorem decoded_content_invariant (H : Host) (chunks : list (list byte)) :
  exists r,
    outcome (parseEmailBody H (stream_of chunks)) = inr r
    /\ (trim (bodyBlock (Utf8.decode (concat chunks))) <> [] ->
        textBody r <> [])
    /\ (forall h, htmlBody r = Some h -> h <> []).
Proof.
  rewrite parseEmailBody_stream_of; simpl.
  eexists; split; [reflexivity|]; split.
  - intros Hb Ht; apply Hb, (textBody_empty H), Ht.
  - intros h; apply htmlBody_not_empty.
Qed.

Lemma decoded_content_invariant_witness :
  exists r,
    outcome (parseEmailBody (Examples.host 200 [])
               (stream_of Examples.html_mail)) = inr r
    /\ textBody r <> []
    /\ htmlBody r = Some (lit "<p>x</p>").
Proof.
  destruct (decoded_content_invariant (Examples.host 200 [])
              Examples.html_mail) as (r & Hr & Ht & Hh).
  exists r; split; [exact Hr|]; split.
  - apply Ht; vm_compute; discriminate.
  - rewrite parseEmailBody_stream_of in Hr; unfold outcome, snd in Hr.
    assert (E : r = parseText (Examples.host 200 [])
                      (Utf8.decode (concat Examples.html_mail)))
      by congruence.
    rewrite E; vm_compute; reflexivity.
Defined.

(** C7, as stated, fails: a body of white space only is not empty, and its
    [textBody] is.  First the single byte 0x20; then a message with a
    header block whose body block is a space and a line feed. *)
Lemma blank_body_gives_empty_text :
  (bodyBlock (Utf8.decode [x20]) = [32%N]
   /\ parseEmailBody (Examples.host 200 []) (stream_of [[x20]])
      = ([GetReader; ReleaseLock],
         inr {| textBody := []; htmlBody := None;
                contentType := text_plain |}))
  /\ (bodyBlock (Utf8.decode (Examples.bytes "Subject: x" ++ [x0a; x0a; x20; x0a]))
      = [32%N; LF]
      /\ parseEmailBody (Examples.host 200 [])
           (stream_of [Examples.bytes "Subject: x"; [x0a; x0a; x20; x0a]])
         = ([GetReader; ReleaseLock],
            inr {| textBody := []; htmlBody := None;
                   contentType := text_plain |})).
Proof. repeat split; vm_compute; reflexivity. Qed.

(** ** The composer *)

Lemma trim_between (lead doc trail t init : jsstring) (c1 c2 : code_unit) :
  forallb isWhiteSpace lead = true -> forallb isWhiteSpace trail = true ->
  doc = c1 :: t -> isWhiteSpace c1 = false ->
  doc = init ++ [c2] -> isWhiteSpace c2 = false ->
  trim (lead ++ doc ++ trail) = doc.
Proof.
  intros Hl Ht E1 H1 E2 H2; unfold trim, trimStart.
  rewrite (dropWhile_all _ _ _ Hl).
  assert (Hd : dropWhile isWhiteSpace (doc ++ trail) = doc ++ trail)
    by (rewrite E1; simpl; rewrite H1; reflexivity).
  rewrite Hd; clear Hd E1; subst doc.
  rewrite <- app_assoc; simpl.
  apply trimEnd_keep; assumption.
Qed.

Lemma htmlContent_document (H : Host) (message : EmailMessage)
      (html : jsstring) :
  htmlContent H message html = htmlDocument H message html.
Proof.
  unfold htmlContent.
  eapply trim_between with (c1 := 60%N) (c2 := 62%N);
    try reflexivity.
  unfold htmlDocument.
  change (lit "</html>") with (lit "</html" ++ [62%N]).
  rewrite !app_assoc; reflexivity.
Qed.

Lemma composeContent_parts (H : Host) (message : EmailMessage)
      (parsedContent : ParsedEmailContent) :
  composeContent H message parsedContent
  = {| type := text_plain; value := textContent H message parsedContent |}
    :: match htmlBody parsedContent with
       | Some html =>
           if truthy html
           then [{| type := text_html; value := htmlContent H message html |}]
           else []
       | None => []
       end.
Proof.
  unfold composeContent.
  destruct (htmlBody parsedContent) as [html|]; [|reflexivity].
  destruct (truthy html); reflexivity.
Qed.

Lemma send_events (H : Host) (payload : MailChannelsPayload) :
  events (send H payload) = [Fetch payload].
Proof.
  unfold send; destruct (fetch H payload) as [r|e|st e];
    [|reflexivity|reflexivity].
  destruct (ok r); reflexivity.
Qed.

Lemma forwardEmail_run (H : Host) (message : EmailMessage)
      (forwardToEmail : jsstring) (parsed : ParsedEmailContent) :
  outcome (parseEmailBody H (raw message)) = inr parsed ->
  forwardEmail H message forwardToEmail
  = ([GetReader; ReleaseLock;
      Fetch (buildPayload H message forwardToEmail parsed)],
     outcome (send H (buildPayload H message forwardToEmail parsed))).
Proof.
  intros Hp; destruct (parseEmailBody_result _ _ _ Hp) as (cs & E & ->).
  unfold forwardEmail; rewrite E; unfold bind.
  pose proof (send_events H (buildPayload H message forwardToEmail
                               (parseText H (Utf8.decode (concat cs))))) as Ev.
  destruct (send H _) as [evs r]; simpl in Ev; subst evs; reflexivity.
Qed.

(** C5.  For every message whose stream is parsed, the payload handed to
    the send collaborator (the only one) has exactly one content part of
    type [text/plain], at most one of type [text/html], and has one of type
    [text/html] if and only if the parser resolved an [htmlBody]. *)
Theorem payload_content_parts (H : Host) (message : EmailMessage)
        (forwardToEmail : jsstring) (parsed : ParsedEmailContent) :
  outcome (parseEmailBody H (raw message)) = inr parsed ->
  let payload := buildPayload H message forwardToEmail parsed in
  filter is_fetch (events (forwardEmail H message forwardToEmail))
  = [Fetch payload]
  /\ length (parts_of_type text_plain (content payload)) = 1
  /\ length (parts_of_type text_html (content payload)) <= 1
  /\ ((exists part, In part (content payload) /\ type part = text_html)
      <-> htmlBody parsed <> None).
Proof.
  intros Hp payload; subst payload.
  rewrite (forwardEmail_run _ _ forwardToEmail _ Hp); simpl content.
  rewrite composeContent_parts.
  destruct (parseEmailBody_result _ _ _ Hp) as (cs & _ & ->).
  split; [reflexivity|].
  destruct (htmlBody (parseText H _)) as [html|] eqn:Eh.
  - apply htmlBody_not_empty, truthy_true in Eh; rewrite Eh.
    split; [reflexivity|]. split; [apply Nat.le_refl|].
    split; [discriminate|].
    intros _; eexists; split; [right; left; reflexivity | reflexivity].
  - split; [reflexivity|]. split; [apply Nat.le_0_l|].
    split; [|congruence].
    intros (part & [<-|[]] & Ht); vm_compute in Ht; discriminate.
Qed.

Lemma payload_content_parts_witness :
  let message := Examples.message (stream_of Examples.html_mail) in
  let parsed := {| textBody := lit "<p>x</p>";
                   htmlBody := Some (lit "<p>x</p>");
                   contentType := text_html |} in
  let payload :=
    buildPayload (Examples.host 200 []) message (lit "to@example.org") parsed in
  outcome (parseEmailBody (Examples.host 200 []) (raw message)) = inr parsed
  /\ length (parts_of_type text_plain (content payload)) = 1
  /\ (exists part, In part (content payload) /\ type part = text_html).
Proof.
  intros message parsed payload.
  assert (Hp : outcome (parseEmailBody (Examples.host 200 []) (raw message))
               = inr parsed) by (vm_compute; reflexivity).
  destruct (payload_content_parts (Examples.host 200 []) message
              (lit "to@example.org") parsed Hp) as (_ & H1 & _ & H2).
  split; [exact Hp|]. split; [exact H1|].
  apply H2; discriminate.
Defined.

(** C6 (as the code has it).  For every message with a resolved
    [htmlBody], the [text/html] part is the document below: the header
    block writes the angle brackets it puts around an address as [&lt;] and
    [&gt;], inserts the name, the address and the subject as they are (no
    character of theirs is replaced), and the [htmlBody] is embedded as it
    is. *)
Theorem html_envelope (H : Host) (message : EmailMessage)
        (parsed : ParsedEmailContent) (html : jsstring) :
  htmlBody parsed = Some html -> html <> [] ->
  parts_of_type text_html (composeContent H message parsed)
  = [{| type := text_html;
        value :=
          lit "<!DOCTYPE html>" ++ [LF]
          ++ lit "<html>" ++ [LF]
          ++ lit "<head><title>Forwarded Message</title></head>" ++ [LF]
          ++ lit "<body>" ++ [LF]
          ++ lit "<div style=" ++ quote
          ++ lit "border-bottom: 2px solid #ccc; padding-bottom: 10px; margin-bottom: 20px;"
          ++ quote ++ lit ">" ++ [LF]
          ++ lit "<h3>Forwarded Message</h3>" ++ [LF]
          ++ lit "<p><strong>From:</strong> " ++ htmlAddress (from message)
          ++ lit "</p>" ++ [LF]
          ++ lit "<p><strong>To:</strong> "
          ++ join (lit ", ") (map htmlAddress (to message))
          ++ lit "</p>" ++ [LF]
          ++ lit "<p><strong>Subject:</strong> " ++ subject message
          ++ lit "</p>" ++ [LF]
          ++ lit "<p><strong>Date:</strong> " ++ isoHtml H
          ++ lit "</p>" ++ [LF]
          ++ lit "</div>" ++ [LF]
          ++ lit "<div>" ++ html ++ lit "</div>" ++ [LF]
          ++ lit "</body>" ++ [LF]
          ++ lit "</html>" |}]
  /\ (forall a n, name a = Some n -> n <> [] ->
      htmlAddress a = n ++ lit " &lt;" ++ email a ++ lit "&gt;")
  /\ (forall a, name a = None \/ name a = Some [] ->
      htmlAddress a = email a).
Proof.
  intros Hh Hne; apply truthy_true in Hne.
  split; [|split].
  - rewrite composeContent_parts, Hh, Hne.
    unfold parts_of_type; simpl.
    change (str_eqb text_plain text_html) with false.
    change (str_eqb text_html text_html) with true.
    rewrite htmlContent_document.
    unfold htmlDocument, htmlHeaderBlock.
    rewrite <- !app_assoc; reflexivity.
  - intros a n Hn Hn'; apply truthy_true in Hn'.
    unfold htmlAddress, name_truthy, name_text; rewrite Hn, Hn'; reflexivity.
  - intros a [Hn|Hn]; unfold htmlAddress, name_truthy; rewrite Hn; reflexivity.
Qed.

Lemma html_envelope_witness :
  let parsed := {| textBody := lit "<p>x</p>";
                   htmlBody := Some (lit "<p>x</p>");
                   contentType := text_html |} in
  exists v,
    parts_of_type text_html
      (composeContent (Examples.host 200 []) (Examples.message StreamEnd) parsed)
    = [{| type := text_html; value := v |}]
    /\ includes (lit "<div><p>x</p></div>") v = true.
Proof.
  intros parsed.
  destruct (html_envelope (Examples.host 200 []) (Examples.message StreamEnd)
              parsed (lit "<p>x</p>")) as (E & _ & _);
    [reflexivity | discriminate |].
  eexists; split; [exact E | vm_compute; reflexivity].
Defined.

(** C6, as stated, fails: the sender name R&D <b> reaches the header block
    of the HTML envelope with its [&], [<] and [>] unchanged; only the
    brackets that the template puts around the address are entities. *)
Lemma name_text_not_escaped :
  let host := Examples.host 200 [] in
  let message := Examples.message (stream_of Examples.html_mail) in
  let parsed := {| textBody := lit "<p>x</p>";
                   htmlBody := Some (lit "<p>x</p>");
                   contentType := text_html |} in
  outcome (parseEmailBody host (raw message)) = inr parsed
  /\ name (from message) = Some (lit "R&D <b>")
  /\ escapeHtml (lit "R&D <b>") = lit "R&amp;D &lt;b&gt;"
  /\ exists v,
       parts_of_type text_html (composeContent host message parsed)
       = [{| type := text_html; value := v |}]
       /\ includes
            (lit "<p><strong>From:</strong> R&D <b> &lt;rd@example.org&gt;</p>")
            v = true
       /\ includes (lit "R&amp;D &lt;b&gt;") v = false.
Proof.
  intros host message parsed.
  split; [vm_compute; reflexivity|].
  split; [reflexivity|]. split; [reflexivity|].
  eexists; split; [vm_compute; reflexivity|].
  split; vm_compute; reflexivity.
Qed.

(** ** The handler *)

(** C8.  When the forwarding address is not configured (the variable is
    unbound or empty), the handler returns the status 500 with a message
    naming the missing variable, and calls nothing: the stream is not read
    and nothing is sent. *)
Theorem missing_configuration (H : Host) (message : EmailMessage) (env : Env) :
  FORWARD_TO_EMAIL env = None \/ FORWARD_TO_EMAIL env = Some [] ->
  events (Worker.email H message env) = []
  /\ outcome (Worker.email H message env)
     = inr {| status := 500;
              body := lit "Configuration error: FORWARD_TO_EMAIL environment variable not set";
              headers := [(lit "Content-Type", text_plain)] |}.
Proof.
  intros [E|E]; unfold Worker.email, Worker.forwardAddress; rewrite E;
    split; reflexivity.
Qed.

Lemma missing_configuration_witness :
  events (Worker.email (Examples.host 200 [])
            (Examples.message (stream_of Examples.html_mail))
            {| FORWARD_TO_EMAIL := None |}) = []
  /\ outcome (Worker.email (Examples.host 200 [])
                (Examples.message (stream_of Examples.html_mail))
                {| FORWARD_TO_EMAIL := None |})
     = inr {| status := 500;
              body := lit "Configuration error: FORWARD_TO_EMAIL environment variable not set";
              headers := [(lit "Content-Type", text_plain)] |}.
Proof.
  apply (missing_configuration (Examples.host 200 [])
           (Examples.message (stream_of Examples.html_mail))
           {| FORWARD_TO_EMAIL := None |}).
  left; reflexivity.
Defined.



(** * Further properties of the code *)

(** ** Reading the stream *)

Lemma read_chunks_run (s : ReadableStream) (got : list (list byte)) :
  read_chunks s got
  = match stream_error s with
    | Some e => throw e
    | None => ret (got ++ stream_chunks s)
    end.
Proof.
  revert got; induction s as [|e|value rest IH]; intros got; simpl.
  - rewrite app_nil_r; reflexivity.
  - reflexivity.
  - rewrite IH; destruct (stream_error rest); [reflexivity|].
    rewrite <- app_assoc; reflexivity.
Qed.

Lemma parseEmailBody_run (H : Host) (s : ReadableStream) :
  parseEmailBody H s
  = ([GetReader; ReleaseLock],
     match stream_error s with
     | Some e => inl e
     | None => inr (parseText H (Utf8.decode (concat (stream_chunks s))))
     end).
Proof.
  unfold parseEmailBody; rewrite read_chunks_run.
  destruct (stream_error s) as [e|]; simpl; [reflexivity|].
  rewrite combine_concat; reflexivity.
Qed.

(** X1.  Whatever the stream delivers, the parser acquires the reader once
    and releases it, also when a read fails; a failed read is the only way
    the parser throws, and it throws the value of that read; otherwise the
    result is the parse of the text decoded from the chunks in arrival
    order (the copy into the buffer never goes out of range). *)
Theorem reader_released_on_every_path (H : Host) (s : ReadableStream) :
  events (parseEmailBody H s) = [GetReader; ReleaseLock]
  /\ (forall e, outcome (parseEmailBody H s) = inl e <-> stream_error s = Some e)
  /\ (forall r, outcome (parseEmailBody H s) = inr r ->
      stream_error s = None
      /\ r = parseText H (Utf8.decode (concat (stream_chunks s)))).
Proof.
  rewrite parseEmailBody_run; unfold events, outcome; simpl.
  split; [reflexivity|].
  destruct (stream_error s) as [e0|]; split.
  - intros e; split; congruence.
  - discriminate.
  - intros e; split; discriminate.
  - intros r E; split; congruence.
Qed.

Lemma reader_released_on_every_path_witness :
  events (parseEmailBody (Examples.host 200 []) Examples.broken_stream)
  = [GetReader; ReleaseLock]
  /\ outcome (parseEmailBody (Examples.host 200 []) Examples.broken_stream)
     = inl (ErrorValue (lit "connection reset")).
Proof.
  destruct (reader_released_on_every_path (Examples.host 200 [])
              Examples.broken_stream) as (Ev & He & _).
  split; [exact Ev|].
  apply He; reflexivity.
Defined.

(** ** Every path of the handler *)

Lemma forwardAddress_some (env : Env) (forwardTo : jsstring) :
  FORWARD_TO_EMAIL env = Some forwardTo -> forwardTo <> [] ->
  Worker.forwardAddress env = Some forwardTo.
Proof.
  intros E Hne; apply truthy_true in Hne.
  unfold Worker.forwardAddress; rewrite E, Hne; reflexivity.
Qed.

Lemma forwardAddress_inv (env : Env) (forwardTo : jsstring) :
  Worker.forwardAddress env = Some forwardTo ->
  FORWARD_TO_EMAIL env = Some forwardTo /\ forwardTo <> [].
Proof.
  unfold Worker.forwardAddress.
  destruct (FORWARD_TO_EMAIL env) as [a|]; [|discriminate].
  destruct a as [|c a]; simpl; [discriminate|].
  intros E; inversion E; split; [reflexivity | discriminate].
Qed.

Lemma failure_body (H : Host) (e : thrown) :
  body (Worker.failure H e) = lit "Email processing failed: " ++ error_text e.
Proof. destruct e; reflexivity. Qed.

(** The handler, path by path. *)
Lemma email_run (H : Host) (message : EmailMessage) (env : Env) :
  Worker.email H message env
  = match Worker.forwardAddress env with
    | None => ([], inr Worker.configurationError)
    | Some forwardTo =>
        match stream_error (raw message) with
        | Some e => ([GetReader; ReleaseLock], inr (Worker.failure H e))
        | None =>
            let parsed :=
              parseText H (Utf8.decode (concat (stream_chunks (raw message)))) in
            let payload := buildPayload H message forwardTo parsed in
            ([GetReader; ReleaseLock; Fetch payload],
             inr match fetch H payload with
                 | Rejected e => Worker.failure H e
                 | Unreadable _ e => Worker.failure H e
                 | Responded r =>
                     if ok r then Worker.success H
                     else Worker.failure H
                            (ErrorValue
                               (lit "MailChannels API failed: "
                                ++ number_toString (response_status r)
                                ++ lit " - " ++ response_text r))
                 end)
        end
    end.
Proof.
  unfold Worker.email.
  destruct (Worker.forwardAddress env) as [forwardTo|]; [|reflexivity].
  unfold forwardEmail; rewrite parseEmailBody_run.
  destruct (stream_error (raw message)) as [e|]; [reflexivity|].
  unfold send; simpl.
  destruct (fetch H _) as [r|e|st e]; [|reflexivity|reflexivity].
  destruct (ok r); reflexivity.
Qed.

(** X2.  When the address is configured and a read of the stream fails, the
    handler answers 500 with the message of the thrown error (or Unknown
    error when the value is not an Error), the reader has been released and
    nothing is sent. *)
Theorem stream_failure_reported (H : Host) (message : EmailMessage)
        (env : Env) (forwardTo : jsstring) (e : thrown) :
  FORWARD_TO_EMAIL env = Some forwardTo -> forwardTo <> [] ->
  stream_error (raw message) = Some e ->
  events (Worker.email H message env) = [GetReader; ReleaseLock]
  /\ exists response,
       outcome (Worker.email H message env) = inr response
       /\ status response = 500%N
       /\ body response = lit "Email processing failed: " ++ error_text e.
Proof.
  intros Henv Hne He.
  rewrite email_run, (forwardAddress_some _ _ Henv Hne), He.
  split; [reflexivity|].
  eexists; split; [reflexivity|]. split; [reflexivity | apply failure_body].
Qed.

Lemma stream_failure_reported_witness :
  events (Worker.email (Examples.host 200 [])
            (Examples.message Examples.broken_stream) Examples.configured)
  = [GetReader; ReleaseLock]
  /\ exists response,
       outcome (Worker.email (Examples.host 200 [])
                  (Examples.message Examples.broken_stream)
                  Examples.configured) = inr response
       /\ status response = 500%N
       /\ body response = lit "Email processing failed: connection reset".
Proof.
  destruct (stream_failure_reported (Examples.host 200 [])
              (Examples.message Examples.broken_stream) Examples.configured
              (lit "to@example.org") (ErrorValue (lit "connection reset")))
    as (Ev & response & E & Hs & Hb);
    [reflexivity | discriminate | reflexivity |].
  split; [exact Ev|].
  exists response; split; [exact E|]. split; [exact Hs|].
  rewrite Hb; reflexivity.
Defined.

(** X3.  When the network call itself fails, the thrown value leaves
    [forwardEmail] as it is, the handler answers 500 with its message (or
    Unknown error), and the send was attempted once. *)
Theorem network_failure_reported (H : Host) (message : EmailMessage)
        (env : Env) (forwardTo : jsstring) (parsed : ParsedEmailContent)
        (e : thrown) :
  FORWARD_TO_EMAIL env = Some forwardTo -> forwardTo <> [] ->
  outcome (parseEmailBody H (raw message)) = inr parsed ->
  fetch H (buildPayload H message forwardTo parsed) = Rejected e ->
  outcome (forwardEmail H message forwardTo) = inl e
  /\ events (Worker.email H message env)
     = [GetReader; ReleaseLock; Fetch (buildPayload H message forwardTo parsed)]
  /\ exists response,
       outcome (Worker.email H message env) = inr response
       /\ status response = 500%N
       /\ body response = lit "Email processing failed: " ++ error_text e.
Proof.
  intros Henv Hne Hp Hf.
  rewrite (forwardEmail_run _ _ forwardTo _ Hp).
  rewrite parseEmailBody_run in Hp; unfold outcome in Hp; simpl in Hp.
  rewrite email_run, (forwardAddress_some _ _ Henv Hne).
  destruct (stream_error (raw message)); [discriminate|].
  inversion Hp as [Hparsed]; simpl; rewrite Hparsed, Hf.
  split; [unfold send; rewrite Hf; reflexivity|].
  split; [reflexivity|].
  eexists; split; [reflexivity|]. split; [reflexivity | apply failure_body].
Qed.

Lemma network_failure_reported_witness :
  let host := Examples.offline_host OtherValue in
  let message := Examples.message (stream_of Examples.html_mail) in
  exists response,
    outcome (Worker.email host message Examples.configured) = inr response
    /\ status response = 500%N
    /\ body response = lit "Email processing failed: Unknown error".
Proof.
  intros host message.
  destruct (network_failure_reported host message Examples.configured
              (lit "to@example.org")
              {| textBody := lit "<p>x</p>";
                 htmlBody := Some (lit "<p>x</p>");
                 contentType := text_html |}
              OtherValue)
    as (_ & _ & response & E & Hs & Hb);
    [reflexivity | discriminate | vm_compute; reflexivity | reflexivity |].
  exists response; split; [exact E|]. split; [exact Hs|].
  rewrite Hb; reflexivity.
Defined.

(** X4.  The handler never throws: it always returns a response, with
    status 200 or 500; the status is 200 exactly when the address is
    configured, the stream was read to its end, the send answered with a
    status in 200..299 and the body of that answer was read.  An answer
    whose body cannot be read gives 500, whatever its status. *)
Theorem handler_status (H : Host) (message : EmailMessage) (env : Env) :
  exists response,
    outcome (Worker.email H message env) = inr response
    /\ (status response = 200%N \/ status response = 500%N)
    /\ (status response = 200%N <->
        exists forwardTo parsed r,
          FORWARD_TO_EMAIL env = Some forwardTo /\ forwardTo <> []
          /\ outcome (parseEmailBody H (raw message)) = inr parsed
          /\ fetch H (buildPayload H message forwardTo parsed) = Responded r
          /\ ok r = true).
Proof.
  rewrite email_run, parseEmailBody_run; unfold outcome; simpl.
  destruct (Worker.forwardAddress env) as [forwardTo|] eqn:Ea.
  - destruct (forwardAddress_inv _ _ Ea) as [Henv Hne].
    destruct (stream_error (raw message)) as [e|]; simpl.
    + eexists; split; [reflexivity|]. split; [right; reflexivity|].
      split; [discriminate|].
      intros (f & p & r & _ & _ & Hp & _); discriminate.
    + destruct (fetch H (buildPayload H message forwardTo _)) as [r|e|st e]
        eqn:Ef.
      * destruct (ok r) eqn:Eok.
        -- eexists; split; [reflexivity|]. split; [left; reflexivity|].
           split; [|reflexivity].
           intros _; exists forwardTo; eexists; exists r; auto.
        -- eexists; split; [reflexivity|]. split; [right; reflexivity|].
           split; [discriminate|].
           intros (f & p & r' & Hf & _ & Hp & Hr & Hok).
           assert (f = forwardTo) by congruence; subst f.
           inversion Hp; subst p; congruence.
      * eexists; split; [reflexivity|]. split; [right; destruct e; reflexivity|].
        split; [destruct e; discriminate|].
        intros (f & p & r' & Hf & _ & Hp & Hr & _).
        assert (f = forwardTo) by congruence; subst f.
        inversion Hp; subst p; congruence.
      * eexists; split; [reflexivity|]. split; [right; destruct e; reflexivity|].
        split; [destruct e; discriminate|].
        intros (f & p & r' & Hf & _ & Hp & Hr & _).
        assert (f = forwardTo) by congruence; subst f.
        inversion Hp; subst p; congruence.
  - eexists; split; [reflexivity|]. split; [right; reflexivity|].
    split; [discriminate|].
    intros (f & p & r & Hf & Hne & _).
    rewrite (forwardAddress_some _ _ Hf Hne) in Ea; discriminate.
Qed.

Lemma handler_status_witness :
  (exists response,
      outcome (Worker.email (Examples.host 202 [])
                 (Examples.message (stream_of Examples.html_mail))
                 Examples.configured) = inr response
      /\ status response = 200%N)
  /\ (exists response,
         outcome (Worker.email
                    (Examples.unreadable_host 200
                       (ErrorValue (lit "body stream failed")))
                    (Examples.message (stream_of Examples.html_mail))
                    Examples.configured) = inr response
         /\ status response = 500%N).
Proof.
  split.
  - destruct (handler_status (Examples.host 202 [])
                (Examples.message (stream_of Examples.html_mail))
                Examples.configured) as (response & E & _ & Hiff).
    exists response; split; [exact E|].
    apply Hiff.
    exists (lit "to@example.org").
    exists {| textBody := lit "<p>x</p>"; htmlBody := Some (lit "<p>x</p>");
              contentType := text_html |}.
    exists {| response_status := 202; response_text := [] |}.
    split; [reflexivity|]. split; [discriminate|].
    split; [vm_compute; reflexivity|]. split; reflexivity.
  - destruct (handler_status
                (Examples.unreadable_host 200
                   (ErrorValue (lit "body stream failed")))
                (Examples.message (stream_of Examples.html_mail))
                Examples.configured) as (response & E & [H200|H500] & Hiff).
    + exfalso.
      destruct (proj1 Hiff H200) as (f & p & r & _ & _ & _ & Hf & _).
      discriminate Hf.
    + exists response; split; [exact E | exact H500].
Defined.

(** X5.  Anything the handler sends goes to the configured address and to
    no one else, carries the original subject behind the marker
    [[Forwarded] ] and the sender's address; it is sent once, after the
    stream has been read to its end and the reader released. *)
Theorem sends_only_to_configured (H : Host) (message : EmailMessage)
        (env : Env) (payload : MailChannelsPayload) :
  In (Fetch payload) (events (Worker.email H message env)) ->
  exists forwardTo,
    FORWARD_TO_EMAIL env = Some forwardTo /\ forwardTo <> []
    /\ personalizations payload
       = [{| personalization_to :=
               [{| email := forwardTo; name := None |}] |}]
    /\ payload_subject payload = lit "[Forwarded] " ++ subject message
    /\ email (payload_from payload) = email (from message)
    /\ stream_error (raw message) = None
    /\ events (Worker.email H message env)
       = [GetReader; ReleaseLock; Fetch payload].
Proof.
  rewrite email_run; unfold events.
  destruct (Worker.forwardAddress env) as [forwardTo|] eqn:Ea; [|intros []].
  destruct (forwardAddress_inv _ _ Ea) as [Henv Hne].
  destruct (stream_error (raw message)) as [e|]; simpl.
  - intros [F|[F|[]]]; discriminate.
  - intros [F|[F|[F|[]]]]; try discriminate.
    inversion F; subst payload.
    exists forwardTo; repeat split; auto.
Qed.

Lemma sends_only_to_configured_witness :
  let host := Examples.host 200 [] in
  let message := Examples.message (stream_of Examples.html_mail) in
  let payload :=
    buildPayload host message (lit "to@example.org")
      {| textBody := lit "<p>x</p>"; htmlBody := Some (lit "<p>x</p>");
         contentType := text_html |} in
  In (Fetch payload) (events (Worker.email host message Examples.configured))
  /\ events (Worker.email host message Examples.configured)
     = [GetReader; ReleaseLock; Fetch payload].
Proof.
  intros host message payload.
  assert (Hin : In (Fetch payload)
                   (events (Worker.email host message Examples.configured)))
    by (vm_compute; right; right; left; reflexivity).
  split; [exact Hin|].
  destruct (sends_only_to_configured host message Examples.configured
              payload Hin) as (f & _ & _ & _ & _ & _ & _ & Ev).
  exact Ev.
Defined.

(** ** Trimming *)

Lemma dropWhile_split (p : code_unit -> bool) (s : jsstring) :
  exists ws, s = ws ++ dropWhile p s /\ forallb p ws = true.
Proof.
  induction s as [|c s (ws & E & Hws)]; simpl.
  - exists []; auto.
  - destruct (p c) eqn:Hc.
    + exists (c :: ws); simpl; rewrite Hc, Hws, <- E; auto.
    + exists []; auto.
Qed.

Lemma dropWhile_head (p : code_unit -> bool) (s t : jsstring) (c : code_unit) :
  dropWhile p s = c :: t -> p c = false.
Proof.
  induction s as [|x s IH]; simpl; [discriminate|].
  destruct (p x) eqn:Hx; [exact IH|].
  intros E; inversion E; subst; exact Hx.
Qed.

(** A trimmed text is empty, or begins and ends with characters that are
    not white space. *)
Lemma trim_shape (s : jsstring) :
  trim s = []
  \/ exists c1 t init c2,
       trim s = c1 :: t /\ trim s = init ++ [c2]
       /\ isWhiteSpace c1 = false /\ isWhiteSpace c2 = false.
Proof.
  unfold trim, trimEnd, trimStart.
  destruct (dropWhile isWhiteSpace (rev (dropWhile isWhiteSpace s)))
    as [|c2 w] eqn:Ew; [left; reflexivity | right].
  pose proof (dropWhile_head _ _ _ _ Ew) as H2.
  destruct (dropWhile_split isWhiteSpace (rev (dropWhile isWhiteSpace s)))
    as (ws & E & _).
  rewrite Ew in E; apply (f_equal (@rev code_unit)) in E.
  rewrite rev_involutive, rev_app_distr in E; simpl in E.
  destruct (dropWhile isWhiteSpace s) as [|c1 u] eqn:Eu.
  - destruct (rev w); discriminate.
  - pose proof (dropWhile_head _ _ _ _ Eu) as H1.
    simpl.
    destruct (rev w) as [|x r]; simpl in *; injection E as Ec _.
    + subst c1; exists c2, [], [], c2; auto.
    + subst x; exists c1, (r ++ [c2]), (c1 :: r), c2; auto.
Qed.

Lemma trim_idempotent (s : jsstring) : trim (trim s) = trim s.
Proof.
  destruct (trim_shape s) as [E|(c1 & t & init & c2 & E1 & E2 & H1 & H2)].
  - rewrite E; reflexivity.
  - pose proof (trim_between [] (trim s) [] t init c1 c2
                  eq_refl eq_refl E1 H1 E2 H2) as T.
    simpl in T; rewrite app_nil_r in T; exact T.
Qed.

Lemma trimmed_nil : trimmed [].
Proof. reflexivity. Qed.

Lemma trimmed_trim (s : jsstring) : trimmed (trim s).
Proof. apply trim_idempotent. Qed.

Lemma trimmed_or_else (a b : jsstring) :
  trimmed a -> trimmed b -> trimmed (or_else a b).
Proof. unfold or_else; destruct (truthy a); auto. Qed.

Lemma trimmed_last_body (kind : jsstring -> bool) (parts : list jsstring) :
  trimmed (last_body kind parts).
Proof.
  unfold last_body; destruct (find kind (rev parts));
    [apply trimmed_trim | apply trimmed_nil].
Qed.

Lemma trimmed_ends (s : jsstring) :
  trimmed s -> s <> [] ->
  exists init c, s = init ++ [c] /\ isWhiteSpace c = false.
Proof.
  intros Ht Hne.
  destruct (trim_shape s) as [E|(c1 & t & init & c2 & _ & E2 & _ & H2)];
    rewrite Ht in *; [contradiction | eauto].
Qed.

Lemma parseText_trimmed (H : Host) (rawText : jsstring) :
  trimmed (textBody (parseText H rawText))
  /\ (forall h, htmlBody (parseText H rawText) = Some h -> trimmed h).
Proof.
  unfold parseText.
  destruct (length (split_re re_blank_line rawText) <? 2); simpl;
    [split; [apply trimmed_trim | discriminate]|].
  destruct (includes (lit "multipart") _); simpl;
    [|split; [apply trimmed_trim | discriminate]].
  destruct (exec re_boundary _); simpl;
    [|split; [apply trimmed_trim | discriminate]].
  rewrite disassemble_resolved; simpl; split.
  - repeat apply trimmed_or_else;
      try apply trimmed_last_body; apply trimmed_trim.
  - intros h; destruct (truthy _); [|discriminate].
    intros E; inversion E; apply trimmed_last_body.
Qed.

(** X6.  Whatever the parser returns has no white space at either end of
    [textBody], nor of [htmlBody] when there is one. *)
Theorem parsed_fields_trimmed (H : Host) (s : ReadableStream)
        (r : ParsedEmailContent) :
  outcome (parseEmailBody H s) = inr r ->
  trim (textBody r) = textBody r
  /\ (forall h, htmlBody r = Some h -> trim h = h).
Proof.
  intros Hr; destruct (parseEmailBody_result _ _ _ Hr) as (cs & _ & ->).
  apply parseText_trimmed.
Qed.

Lemma parsed_fields_trimmed_witness :
  let r := {| textBody := lit "body text"; htmlBody := None;
              contentType := lit "multipart/alternative" |} in
  outcome (parseEmailBody (Examples.host 200 [])
             (stream_of [Examples.bytes "Content-Type: multipart/alternative";
                         [x0d; x0a; x0d; x0a]; Examples.bytes "  body text  "]))
  = inr r
  /\ trim (textBody r) = textBody r.
Proof.
  intros r.
  assert (Hr : outcome (parseEmailBody (Examples.host 200 [])
             (stream_of [Examples.bytes "Content-Type: multipart/alternative";
                         [x0d; x0a; x0d; x0a]; Examples.bytes "  body text  "]))
               = inr r) by (vm_compute; reflexivity).
  split; [exact Hr|].
  destruct (parsed_fields_trimmed _ _ _ Hr) as [Ht _]; exact Ht.
Defined.

(** ** The text envelope *)

Lemma trim_template (A A' body : jsstring) (c1 : code_unit) :
  A = c1 :: A' -> isWhiteSpace c1 = false ->
  trimmed body -> body <> [] ->
  trim ([LF] ++ (A ++ body) ++ [LF] ++ lit "  ") = A ++ body.
Proof.
  intros EA H1 Ht Hne.
  destruct (trimmed_ends _ Ht Hne) as (init & c2 & Eb & H2).
  apply trim_between with (t := A' ++ body) (init := A ++ init)
                          (c1 := c1) (c2 := c2);
    try reflexivity; auto.
  - rewrite EA; reflexivity.
  - rewrite Eb at 1; apply app_assoc.
Qed.

(** X7.  For a parsed message whose [textBody] is not empty, the
    [text/plain] part is exactly the banner, the From, To, Subject and Date
    lines, an empty line and the [textBody]: the body text is carried
    unchanged and nothing follows it. *)
Theorem text_envelope (H : Host) (message : EmailMessage)
        (parsed : ParsedEmailContent) :
  outcome (parseEmailBody H (raw message)) = inr parsed ->
  textBody parsed <> [] ->
  parts_of_type text_plain (composeContent H message parsed)
  = [{| type := text_plain;
        value :=
          lit "---------- Forwarded Message ----------" ++ [LF]
          ++ lit "From: " ++ textAddress (from message) ++ [LF]
          ++ lit "To: " ++ join (lit ", ") (map textAddress (to message))
          ++ [LF]
          ++ lit "Subject: " ++ subject message ++ [LF]
          ++ lit "Date: " ++ isoText H ++ [LF]
          ++ [LF]
          ++ textBody parsed |}].
Proof.
  intros Hp Hne.
  assert (Ht : trimmed (textBody parsed))
    by (destruct (parseEmailBody_result _ _ _ Hp) as (cs & _ & ->);
        apply parseText_trimmed).
  assert (Hparts : parts_of_type text_plain (composeContent H message parsed)
                   = [{| type := text_plain;
                         value := textContent H message parsed |}]).
  { rewrite composeContent_parts.
    destruct (htmlBody parsed) as [h|]; [destruct (truthy h)|]; reflexivity. }
  rewrite Hparts; do 2 f_equal.
  unfold textContent.
  pose (A := lit "---------- Forwarded Message ----------" ++ [LF]
             ++ lit "From: " ++ textAddress (from message) ++ [LF]
             ++ lit "To: " ++ join (lit ", ") (map textAddress (to message))
             ++ [LF]
             ++ lit "Subject: " ++ subject message ++ [LF]
             ++ lit "Date: " ++ isoText H ++ [LF] ++ [LF]).
  transitivity (A ++ textBody parsed);
    [|unfold A; rewrite <- !app_assoc; reflexivity].
  rewrite <- (trim_template A (tl A) (textBody parsed) 45%N);
    try reflexivity; auto.
  unfold A; rewrite <- !app_assoc; reflexivity.
Qed.

Lemma text_envelope_witness :
  let message := Examples.message (stream_of Examples.html_mail) in
  let parsed := {| textBody := lit "<p>x</p>";
                   htmlBody := Some (lit "<p>x</p>");
                   contentType := text_html |} in
  parts_of_type text_plain
    (composeContent (Examples.host 200 []) message parsed)
  = [{| type := text_plain;
        value := lit "---------- Forwarded Message ----------" ++ [LF]
                 ++ lit "From: R&D <b> <rd@example.org>" ++ [LF]
                 ++ lit "To: in@example.org" ++ [LF]
                 ++ lit "Subject: Hi" ++ [LF]
                 ++ lit "Date: 2024-01-01T00:00:00.000Z" ++ [LF; LF]
                 ++ lit "<p>x</p>" |}].
Proof.
  intros message parsed.
  rewrite (text_envelope (Examples.host 200 []) message parsed);
    [reflexivity | vm_compute; reflexivity | discriminate].
Defined.

(** ** Where an HTML body comes from *)

Lemma or_else_truthy (a b c : jsstring) :
  truthy b = true -> or_else a (or_else b c) <> [].
Proof.
  unfold or_else; destruct a; simpl; [|discriminate].
  intros Hb; rewrite Hb; apply truthy_true, Hb.
Qed.

(** X8.  An [htmlBody] is resolved only for a text with a blank line whose
    header block declares a multipart type and a boundary; it is then the
    body fragment of a section of the body classified [text/html], and
    [textBody] is not empty.  A message that is not multipart, whatever its
    type, has no [htmlBody]. *)
Theorem html_only_from_multipart (H : Host) (rawText h : jsstring) :
  htmlBody (parseText H rawText) = Some h ->
  exists headers rest cap section,
    split_re re_blank_line rawText = headers :: rest
    /\ rest <> []
    /\ includes (lit "multipart") (resolveContentType H headers) = true
    /\ exec re_boundary headers = Some cap
    /\ In section (sections (join [LF; LF] rest) (remove_class isQuote cap))
    /\ is_html section = true
    /\ sectionBody section = h
    /\ textBody (parseText H rawText) <> [].
Proof.
  unfold parseText.
  destruct (split_re re_blank_line rawText) as [|headers [|body rest]]
    eqn:Es; try (simpl; discriminate).
  change (length (headers :: body :: rest) <? 2) with false.
  simpl hd; simpl tl; cbv iota.
  remember (join [LF; LF] (body :: rest)) as bodyContent eqn:Ebody.
  destruct (includes (lit "multipart") _) eqn:Em; [|simpl; discriminate].
  destruct (exec re_boundary headers) as [cap|] eqn:Eb;
    [|simpl; discriminate].
  rewrite disassemble_resolved; cbv zeta; cbn [htmlBody textBody].
  destruct (truthy (last_body is_html _)) eqn:Et; [|discriminate].
  intros E; injection E as Eh.
  pose proof Et as Et'.
  unfold last_body in Eh, Et.
  destruct (find is_html (rev _)) as [section|] eqn:Ef; [|discriminate].
  apply find_some in Ef; destruct Ef as [Hin Hk]; apply in_rev in Hin.
  exists headers, (body :: rest), cap, section.
  split; [reflexivity|]. split; [discriminate|]. split; [exact Em|].
  split; [exact Eb|]. rewrite <- Ebody.
  split; [exact Hin|]. split; [exact Hk|]. split; [exact Eh|].
  apply or_else_truthy, Et'.
Qed.

Lemma html_only_from_multipart_witness :
  exists section,
    In section (sections (bodyBlock Examples.round_trip) (lit "XYZ"))
    /\ is_html section = true
    /\ sectionBody section = lit "<b>Hi</b>".
Proof.
  destruct (html_only_from_multipart (Examples.host 200 [])
              Examples.round_trip (lit "<b>Hi</b>"))
    as (headers & rest & cap & section & Es & _ & _ & Eb & Hin & Hk & Hb & _);
    [vm_compute; reflexivity|].
  exists section.
  assert (Eh : headers = lit "Content-Type: multipart/mixed; boundary=XYZ"
               /\ join [LF; LF] rest = bodyBlock Examples.round_trip)
    by (vm_compute in Es; inversion Es; split; reflexivity).
  destruct Eh as [-> Er]; rewrite Er in Hin.
  assert (Ec : cap = lit "XYZ")
    by (vm_compute in Eb; injection Eb as <-; reflexivity).
  subst cap; auto.
Defined.

(** X9.  When the header block has no [Content-Type:] in any letter case,
    the type defaults to [text/plain] and the message is handled as a
    single part, whatever the body contains. *)
Theorem missing_content_type (H : Host) (rawText headers : jsstring)
        (rest : list jsstring) :
  split_re re_blank_line rawText = headers :: rest ->
  rest <> [] ->
  ci_includes (lit "Content-Type:") headers = false ->
  parseText H rawText
  = {| textBody := trim (join [LF; LF] rest); htmlBody := None;
       contentType := text_plain |}.
Proof.
  intros Hs Hr Hc; unfold parseText.
  rewrite (split_length_two _ _ _ Hs Hr), Hs; simpl hd; simpl tl.
  unfold resolveContentType, re_content_type.
  rewrite (exec_ci_literal _ _ _ Hc).
  change (includes (lit "multipart") text_plain) with false.
  reflexivity.
Qed.

Lemma missing_content_type_witness :
  parseText (Examples.host 200 [])
    (lit "Subject: x; boundary=B" ++ [LF; LF] ++ Examples.only_html)
  = {| textBody := Examples.only_html; htmlBody := None;
       contentType := text_plain |}.
Proof.
  rewrite (missing_content_type (Examples.host 200 [])
             (lit "Subject: x; boundary=B" ++ [LF; LF] ++ Examples.only_html)
             (lit "Subject: x; boundary=B")
             [lit "--B" ++ [LF] ++ lit "Content-Type: text/html";
              lit "<p>x</p>" ++ [LF] ++ lit "--B--"]);
    [reflexivity | reflexivity | discriminate | reflexivity].
Defined.

(** ** Sections *)

(** X10.  A section that the loop does not classify (an attachment, an
    empty section, the terminator) changes neither candidate, wherever it
    stands among the sections. *)
Theorem unclassified_section_ignored (pre post : list jsstring)
        (section : jsstring) :
  is_plain section = false -> is_html section = false ->
  scan_sections (pre ++ section :: post) = scan_sections (pre ++ post).
Proof.
  intros Hp Hh; unfold scan_sections.
  rewrite !fold_left_app; simpl.
  rewrite scan_section_kind, Hp, Hh; reflexivity.
Qed.

Lemma unclassified_section_ignored_witness :
  let plain := [LF] ++ lit "Content-Type: text/plain" ++ [LF; LF]
               ++ lit "Hello" ++ [LF] in
  let pdf := [LF] ++ lit "Content-Type: application/pdf" ++ [LF; LF]
             ++ lit "JVBERi0=" ++ [LF] in
  sections Examples.with_attachment (lit "B") = [[]; plain; pdf; lit "--"]
  /\ scan_sections (sections Examples.with_attachment (lit "B"))
     = scan_sections [[]; plain; lit "--"].
Proof.
  intros plain pdf.
  assert (Es : sections Examples.with_attachment (lit "B")
               = [[]; plain; pdf; lit "--"]) by reflexivity.
  split; [exact Es|]; rewrite Es.
  apply (unclassified_section_ignored [[]; plain] [lit "--"] pdf);
    reflexivity.
Defined.

Lemma strip_prefix_app (pat s rest : jsstring) :
  strip_prefix pat s = Some rest -> s = pat ++ rest.
Proof.
  revert s; induction pat as [|p pat IH]; intros s; simpl.
  - intros E; inversion E; reflexivity.
  - destruct s as [|c s]; [discriminate|].
    destruct (N.eqb_spec p c); [|discriminate].
    intros E; apply IH in E; subst; reflexivity.
Qed.

Lemma split_go_nonempty (matcher : jsstring -> option nat) (s : jsstring)
      (k : nat) (cur : jsstring) :
  split_go matcher s k cur <> [].
Proof.
  revert k cur; induction s as [|c t IH]; intros k cur; simpl;
    [discriminate|].
  destruct k as [|k]; [|apply IH].
  destruct (matcher (c :: t)) as [[|n]|]; try apply IH; discriminate.
Qed.

Lemma join_cons (sep x : jsstring) (l : list jsstring) :
  l <> [] -> join sep (x :: l) = x ++ sep ++ join sep l.
Proof. destruct l; [congruence | reflexivity]. Qed.

Lemma split_go_join_on (matcher : jsstring -> option nat)
      (sep s r s' cur : jsstring) :
  (forall n, matcher (skipn n s)
             = if startsWith sep (skipn n s) then Some (length sep) else None) ->
  s = r ++ s' ->
  join sep (split_go matcher s (length r) cur) = rev cur ++ s'.
Proof.
  revert r s' cur; induction s as [|c t IH]; intros r s' cur Hm E.
  - destruct r; [|discriminate]; simpl in E; subst s'; simpl.
    rewrite app_nil_r; reflexivity.
  - assert (Ht : forall n, matcher (skipn n t)
                   = if startsWith sep (skipn n t) then Some (length sep)
                     else None) by (intros n; apply (Hm (S n))).
    destruct r as [|x r]; simpl in E.
    + subst s'.
      pose proof (IH [] t (c :: cur) Ht eq_refl) as Hskip.
      change (length (@nil code_unit)) with 0 in *.
      cbn [rev] in Hskip; rewrite <- app_assoc in Hskip.
      pose proof (Hm 0) as Hm0; cbn [skipn] in Hm0.
      cbn [split_go]; rewrite Hm0.
      destruct (startsWith sep (c :: t)) eqn:Hs; [|exact Hskip].
      destruct sep as [|p sep']; [exact Hskip|].
      unfold startsWith in Hs.
      destruct (strip_prefix (p :: sep') (c :: t)) as [rest|] eqn:Ep;
        [|discriminate].
      apply strip_prefix_app in Ep; simpl in Ep; injection Ep as Ec Et.
      cbn [length].
      rewrite join_cons by apply split_go_nonempty.
      rewrite (IH sep' rest [] Ht Et); subst; reflexivity.
    + injection E as _ Et; cbn [split_go length]; apply (IH r s' cur Ht Et).
Qed.

(** X11.  Splitting a multipart body on its delimiter loses nothing: there
    is always at least one section, and the sections joined again with the
    delimiter are the body. *)
Theorem sections_rejoin (bodyContent boundary : jsstring) :
  sections bodyContent boundary <> []
  /\ join (lit "--" ++ boundary) (sections bodyContent boundary) = bodyContent.
Proof.
  unfold sections, split_str, split_with; split.
  - apply split_go_nonempty.
  - apply (split_go_join_on _ (lit "--" ++ boundary) bodyContent []
             bodyContent []); reflexivity.
Qed.

Lemma sections_rejoin_witness :
  join (lit "--B") (sections Examples.with_attachment (lit "B"))
  = Examples.with_attachment.
Proof.
  destruct (sections_rejoin Examples.with_attachment (lit "B")) as [_ E].
  exact E.
Defined.

(** ** The header block *)

Lemma match_len_lf_lf (x : jsstring) :
  match_len re_blank_line (LF :: LF :: x) = Some 2.
Proof.
  unfold match_len.
  replace (match_here re_blank_line (LF :: LF :: x)) with (Some ([] : jsstring, x))
    by reflexivity.
  f_equal; cbn [length]; lia.
Qed.

Lemma match_len_lf_cr_lf (x : jsstring) :
  match_len re_blank_line (LF :: CR :: LF :: x) = Some 3.
Proof.
  unfold match_len.
  replace (match_here re_blank_line (LF :: CR :: LF :: x))
    with (Some ([] : jsstring, x)) by reflexivity.
  f_equal; cbn [length]; lia.
Qed.

Lemma match_len_cr_lf_lf (x : jsstring) :
  match_len re_blank_line (CR :: LF :: LF :: x) = Some 3.
Proof.
  unfold match_len.
  replace (match_here re_blank_line (CR :: LF :: LF :: x))
    with (Some ([] : jsstring, x)) by reflexivity.
  f_equal; cbn [length]; lia.
Qed.

Lemma match_len_cr_lf_cr_lf (x : jsstring) :
  match_len re_blank_line (CR :: LF :: CR :: LF :: x) = Some 4.
Proof.
  unfold match_len.
  replace (match_here re_blank_line (CR :: LF :: CR :: LF :: x))
    with (Some ([] : jsstring, x)) by reflexivity.
  f_equal; cbn [length]; lia.
Qed.

Lemma blank_line_shape (s : jsstring) :
  match_len re_blank_line s <> None ->
  exists sep after, In sep blank_lines /\ s = sep ++ after.
Proof.
  unfold match_len, re_blank_line, blank_lines, chr, LF, CR.
  destruct s as [|a [|b [|c [|d t]]]]; simpl;
    repeat match goal with
           | |- context [N.eqb ?x ?y] =>
               is_var x; destruct (N.eqb_spec x y); subst; simpl
           end;
    try (intros F; exfalso; apply F; reflexivity);
    intros _;
    first [ exists [10%N; 10%N]; eexists; split; [tauto | reflexivity]
          | exists [10%N; 13%N; 10%N]; eexists; split; [tauto | reflexivity]
          | exists [13%N; 10%N; 10%N]; eexists; split; [tauto | reflexivity]
          | exists [13%N; 10%N; 13%N; 10%N]; eexists;
            split; [tauto | reflexivity] ].
Qed.

Lemma match_len_positive (s : jsstring) (n : nat) :
  match_len re_blank_line s = Some n -> exists k, n = S k.
Proof.
  intros E.
  destruct (blank_line_shape s) as (sep & after & Hin & ->); [congruence|].
  unfold blank_lines in Hin.
  destruct Hin as [<-|[<-|[<-|[<-|[]]]]]; simpl in E;
    [rewrite match_len_lf_lf in E | rewrite match_len_lf_cr_lf in E
     | rewrite match_len_cr_lf_lf in E | rewrite match_len_cr_lf_cr_lf in E];
    injection E as <-; eauto.
Qed.

(** The first piece of a split in two or more is what precedes the first
    position where the separator matches. *)
Lemma split_go_first (matcher : jsstring -> option nat)
      (s cur p q : jsstring) (l : list jsstring) :
  split_go matcher s 0 cur = p :: q :: l ->
  exists pre s2 k,
    s = pre ++ s2 /\ p = rev cur ++ pre /\ matcher s2 = Some (S k)
    /\ forall n k', n < length pre -> matcher (skipn n s) <> Some (S k').
Proof.
  revert cur; induction s as [|c t IH]; intros cur; simpl; [discriminate|].
  destruct (matcher (c :: t)) as [[|k]|] eqn:Em.
  - intros E; destruct (IH _ E) as (pre & s2 & k & -> & -> & Hm & Hfirst).
    exists (c :: pre), s2, k; simpl; rewrite <- app_assoc.
    repeat split; auto.
    intros [|n] k' Hn; simpl; [congruence | apply Hfirst; lia].
  - intros E; injection E as <- _.
    exists [], (c :: t), k; rewrite app_nil_r.
    repeat split; auto; simpl; intros n k' Hn; lia.
  - intros E; destruct (IH _ E) as (pre & s2 & k & -> & -> & Hm & Hfirst).
    exists (c :: pre), s2, k; simpl; rewrite <- app_assoc.
    repeat split; auto.
    intros [|n] k' Hn; simpl; [congruence | apply Hfirst; lia].
Qed.

Lemma split_go_two (matcher : jsstring -> option nat) (s cur : jsstring)
      (n k : nat) :
  n < length s -> matcher (skipn n s) = Some (S k) ->
  exists p q l, split_go matcher s 0 cur = p :: q :: l.
Proof.
  revert cur n; induction s as [|c t IH]; intros cur n Hn Hm; simpl in *;
    [lia|].
  destruct (matcher (c :: t)) as [[|k0]|] eqn:Em.
  - destruct n as [|n]; [simpl in Hm; congruence|].
    apply (IH _ n); [lia | exact Hm].
  - pose proof (split_go_nonempty matcher t k0 []) as Hne.
    destruct (split_go matcher t k0 []) as [|q l]; [congruence|].
    exists (rev cur), q, l; reflexivity.
  - destruct n as [|n]; [simpl in Hm; congruence|].
    apply (IH _ n); [lia | exact Hm].
Qed.

Lemma includes_occurs (pat s : jsstring) :
  includes pat s = true ->
  exists n rest, skipn n s = pat ++ rest /\ n + length pat <= length s.
Proof.
  induction s as [|c t IH]; simpl; rewrite orb_true_iff; unfold startsWith.
  - intros [E|E]; [|discriminate].
    destruct (strip_prefix pat []) as [rest|] eqn:Ep; [|discriminate].
    apply strip_prefix_app in Ep; symmetry in Ep.
    apply app_eq_nil in Ep; destruct Ep as [-> ->].
    exists 0, []; simpl; auto.
  - intros [E|E].
    + destruct (strip_prefix pat (c :: t)) as [rest|] eqn:Ep; [|discriminate].
      apply strip_prefix_app in Ep; exists 0, rest.
      split; [exact Ep|].
      apply (f_equal (@length code_unit)) in Ep.
      rewrite length_app in Ep; simpl in *; lia.
    + destruct (IH E) as (n & rest & Hn & Hl).
      exists (S n), rest; simpl; split; [exact Hn | lia].
Qed.

Lemma skipn_within (n : nat) (a b : jsstring) :
  n <= length a -> skipn n (a ++ b) = skipn n a ++ b.
Proof.
  intros Hn; rewrite skipn_app.
  replace (n - length a) with 0 by lia; reflexivity.
Qed.

(** X12.  When the text splits into a header block and more, the header
    block is the text up to the first blank line: one of the four blank
    line sequences follows it, the pattern matches at no earlier position,
    and the header block itself contains no blank line. *)
Theorem header_block_ends_at_first_blank_line (rawText headers : jsstring)
        (rest : list jsstring) :
  split_re re_blank_line rawText = headers :: rest ->
  rest <> [] ->
  (exists sep after,
      In sep blank_lines /\ rawText = headers ++ sep ++ after)
  /\ (forall n, n < length headers ->
      match_len re_blank_line (skipn n rawText) = None)
  /\ includes [LF; LF] headers = false
  /\ includes [LF; CR; LF] headers = false.
Proof.
  intros Hs Hr; destruct rest as [|q l]; [congruence|].
  apply split_go_first in Hs.
  destruct Hs as (pre & s2 & k & Et & Eh & Hm & Hfirst); simpl in Eh.
  subst pre.
  assert (Hnone : forall n, n < length headers ->
                    match_len re_blank_line (skipn n rawText) = None).
  { intros n Hn.
    destruct (match_len re_blank_line (skipn n rawText)) as [j|] eqn:E;
      [|reflexivity].
    destruct (match_len_positive _ _ E) as (j' & ->).
    exfalso; apply (Hfirst n j' Hn E). }
  split; [|split; [exact Hnone|]].
  - destruct (blank_line_shape s2) as (sep & after & Hin & ->);
      [congruence|].
    exists sep, after; auto.
  - split.
    + destruct (includes [LF; LF] headers) eqn:E; [exfalso|reflexivity].
      apply includes_occurs in E; destruct E as (n & r & En & Hl).
      simpl in Hl.
      assert (Hn : n < length headers) by lia.
      specialize (Hnone n Hn).
      rewrite Et, skipn_within, En in Hnone by lia.
      simpl in Hnone; rewrite match_len_lf_lf in Hnone; discriminate.
    + destruct (includes [LF; CR; LF] headers) eqn:E; [exfalso|reflexivity].
      apply includes_occurs in E; destruct E as (n & r & En & Hl).
      simpl in Hl.
      assert (Hn : n < length headers) by lia.
      specialize (Hnone n Hn).
      rewrite Et, skipn_within, En in Hnone by lia.
      simpl in Hnone; rewrite match_len_lf_cr_lf in Hnone; discriminate.
Qed.

Lemma header_block_ends_at_first_blank_line_witness :
  exists sep after,
    In sep blank_lines
    /\ Examples.no_boundary
       = lit "Content-Type: multipart/alternative" ++ sep ++ after.
Proof.
  destruct (header_block_ends_at_first_blank_line Examples.no_boundary
              (lit "Content-Type: multipart/alternative")
              [lit "  body text  "]) as [Hsep _];
    [reflexivity | discriminate |].
  exact Hsep.
Defined.

(** X13.  The text is split into a header block and a body block exactly
    when it contains a blank line (LF LF or LF CR LF); then the body block
    is what follows, its parts joined by LF LF. *)
Theorem header_block_iff_blank_line (rawText : jsstring) :
  (exists headers rest,
      split_re re_blank_line rawText = headers :: rest /\ rest <> []
      /\ bodyBlock rawText = join [LF; LF] rest)
  <-> (includes [LF; LF] rawText = true
       \/ includes [LF; CR; LF] rawText = true).
Proof.
  split.
  - intros (headers & rest & Hs & Hr & _).
    destruct (includes [LF; LF] rawText) eqn:E1; [auto|].
    destruct (includes [LF; CR; LF] rawText) eqn:E2; [auto|].
    rewrite (no_blank_line_split _ E1 E2) in Hs.
    injection Hs as _ <-; congruence.
  - intros Hb.
    assert (Hm : exists n k, n < length rawText
                   /\ match_len re_blank_line (skipn n rawText) = Some (S k)).
    { destruct Hb as [E|E]; apply includes_occurs in E;
        destruct E as (n & r & En & Hl); simpl in Hl;
        exists n; rewrite En; simpl.
      - exists 1; split; [lia | apply match_len_lf_lf].
      - exists 2; split; [lia | apply match_len_lf_cr_lf]. }
    destruct Hm as (n & k & Hn & Hm).
    destruct (split_go_two (match_len re_blank_line) rawText [] n k Hn Hm)
      as (p & q & l & Hs).
    exists p, (q :: l); unfold bodyBlock, split_re, split_with.
    rewrite Hs.
    split; [reflexivity|]. split; [discriminate | reflexivity].
Qed.

Lemma header_block_iff_blank_line_witness :
  exists headers rest,
    split_re re_blank_line Examples.round_trip = headers :: rest
    /\ rest <> []
    /\ bodyBlock Examples.round_trip = join [LF; LF] rest.
Proof.
  apply (header_block_iff_blank_line Examples.round_trip).
  right; reflexivity.
Defined.

(** ** ASCII streams *)

Lemma run_ascii (bs : list byte) :
  Forall (fun b => (Byte.to_N b < 128)%N) bs ->
  Utf8.run Utf8.fresh bs = map Byte.to_N bs.
Proof.
  induction 1 as [|b bs Hb _ IH]; [reflexivity|].
  cbn [Utf8.run map]; unfold Utf8.feed, Utf8.lead.
  change (Utf8.bytes_needed Utf8.fresh =? 0)%N with true; cbv iota.
  replace (Byte.to_N b <=? 127)%N with true
    by (symmetry; apply N.leb_le; lia).
  rewrite IH; reflexivity.
Qed.

Lemma utf16_small (l : list N) :
  Forall (fun c => (c < 128)%N) l -> flat_map Utf8.utf16 l = l.
Proof.
  induction 1 as [|c l Hc _ IH]; [reflexivity|].
  cbn [flat_map]; rewrite IH; unfold Utf8.utf16.
  replace (c <? 65536)%N with true by (symmetry; apply N.ltb_lt; lia).
  reflexivity.
Qed.

(** X14.  A stream of ASCII bytes, however it is cut into chunks, is
    assembled into the text with the same code units, in the same order. *)
Theorem ascii_text_unchanged (chunks : list (list byte)) :
  Forall (fun b => (Byte.to_N b < 128)%N) (concat chunks) ->
  assemble chunks = Some (map Byte.to_N (concat chunks)).
Proof.
  intros Ha; unfold assemble; rewrite combine_concat; simpl.
  unfold Utf8.decode; rewrite (run_ascii _ Ha).
  assert (Hsmall : Forall (fun c => (c < 128)%N)
                     (map Byte.to_N (concat chunks)))
    by (rewrite Forall_map; exact Ha).
  destruct (map Byte.to_N (concat chunks)) as [|c l] eqn:El;
    [reflexivity|].
  unfold Utf8.strip_bom.
  replace (c =? 65279)%N with false
    by (symmetry; apply N.eqb_neq; inversion Hsmall; subst; lia).
  rewrite (utf16_small _ Hsmall); reflexivity.
Qed.

Lemma ascii_text_unchanged_witness :
  assemble [Examples.bytes "Subj"; Examples.bytes "ect: x"]
  = Some (lit "Subject: x").
Proof.
  rewrite (ascii_text_unchanged [Examples.bytes "Subj"; Examples.bytes "ect: x"]);
    [reflexivity|].
  vm_compute; repeat constructor.
Defined.

(** ** What the header patterns extract *)

Lemma cap_plus_run (p : code_unit -> bool) (a b : jsstring) :
  a <> [] -> forallb p a = true -> stops p b = true ->
  match_here [CapPlus p] (a ++ b) = Some (a, b).
Proof.
  intros Hne Ha Hb.
  destruct a as [|c a]; [congruence|].
  simpl in Ha; apply andb_true_iff in Ha; destruct Ha as [Hc Ha].
  clear Hne; cbn [match_here app]; rewrite Hc.
  change (Some (c :: a, b)) with (Some (rev [c] ++ a, b)).
  generalize [c] as got.
  induction a as [|x a IH]; intros got; cbn [app].
  - rewrite app_nil_r.
    destruct b as [|y b]; [reflexivity|].
    simpl in Hb; apply negb_true_iff in Hb; rewrite Hb; reflexivity.
  - simpl in Ha; apply andb_true_iff in Ha; destruct Ha as [Hx Ha].
    rewrite Hx, (IH Ha (x :: got)); simpl; rewrite <- app_assoc; reflexivity.
Qed.

Lemma star_run (p : code_unit -> bool) (r : regex) (ws s : jsstring)
      (x : jsstring * jsstring) :
  forallb p ws = true -> stops p s = true ->
  match_here r s = Some x ->
  match_here (Star p :: r) (ws ++ s) = Some x.
Proof.
  intros Hws Hs Hm; cbn [match_here].
  induction ws as [|w ws IH]; cbn [app].
  - destruct s as [|c t]; [exact Hm|].
    simpl in Hs; apply negb_true_iff in Hs; rewrite Hs; exact Hm.
  - simpl in Hws; apply andb_true_iff in Hws; destruct Hws as [Hw Hws].
    rewrite Hw, (IH Hws); reflexivity.
Qed.

Lemma ci_literal_run (pat key : jsstring) (r : regex) (s : jsstring) :
  length key = length pat -> ci_startsWith pat key = true ->
  match_here (map (fun p => One (ci p)) pat ++ r) (key ++ s) = match_here r s.
Proof.
  revert key; induction pat as [|p pat IH]; intros [|c key]; simpl;
    try discriminate; [reflexivity|].
  intros Hl Hk; apply andb_true_iff in Hk; destruct Hk as [Hc Hk].
  rewrite Hc; apply IH; [lia | exact Hk].
Qed.

Lemma exec_here (r : regex) (s cap rest : jsstring) :
  match_here r s = Some (cap, rest) -> exec r s = Some cap.
Proof. intros M; destruct s; simpl; rewrite M; reflexivity. Qed.

Lemma exec_skip (pat : jsstring) (r : regex) (pre s : jsstring) :
  not_before pat pre s = true ->
  exec (map (fun p => One (ci p)) pat ++ r) (pre ++ s)
  = exec (map (fun p => One (ci p)) pat ++ r) s.
Proof.
  unfold not_before; rewrite forallb_forall; intros Hno.
  assert (Hn : forall n, n < length pre ->
                 ci_startsWith pat (skipn n (pre ++ s)) = false).
  { intros n Hn; apply negb_true_iff, Hno, in_seq; lia. }
  clear Hno; induction pre as [|c pre IH]; [reflexivity|].
  cbn [app exec].
  destruct (match_here _ (c :: pre ++ s)) as [[cap rest]|] eqn:M.
  - apply ci_literal_match in M.
    specialize (Hn 0 (Nat.lt_0_succ _)); simpl in Hn; congruence.
  - apply IH; intros n Hlt; apply (Hn (S n)); simpl; lia.
Qed.

Lemma stops_app (p : code_unit -> bool) (a b : jsstring) :
  a <> [] -> stops p a = true -> stops p (a ++ b) = true.
Proof. destruct a; [congruence | auto]. Qed.

(** X15.  When the first [Content-Type:] of the header block, in any
    letter case, is followed by white space (possibly none) and then by a
    value that is not empty, begins with a character that is not white
    space and runs up to the next semicolon, CR or LF (or the end of the
    block), the declared type is that value, trimmed and put in lower
    case. *)
Theorem declared_type_extracted (H : Host)
        (pre key ws ty tail : jsstring) :
  not_before (lit "Content-Type:") pre (key ++ ws ++ ty ++ tail) = true ->
  length key = 13 -> ci_startsWith (lit "Content-Type:") key = true ->
  forallb isWhiteSpace ws = true ->
  ty <> [] -> stops isWhiteSpace ty = true ->
  forallb notSemiCrLf ty = true -> stops notSemiCrLf tail = true ->
  resolveContentType H (pre ++ key ++ ws ++ ty ++ tail)
  = toLowerCase H (trim ty).
Proof.
  intros Hpre Hlen Hkey Hws Hne Hfirst Hty Htail.
  unfold resolveContentType, re_content_type, ci_lit.
  rewrite (exec_skip _ _ _ _ Hpre).
  rewrite (exec_here _ _ ty tail); [reflexivity|].
  rewrite ci_literal_run by assumption.
  apply star_run; [exact Hws | apply stops_app; assumption|].
  apply cap_plus_run; assumption.
Qed.

Lemma declared_type_extracted_witness :
  resolveContentType (Examples.host 200 [])
    ((lit "Subject: x" ++ [CR; LF])
     ++ lit "content-type:" ++ lit "  " ++ lit "Multipart/Mixed "
     ++ lit "; boundary=B")
  = lit "multipart/mixed".
Proof.
  rewrite (declared_type_extracted (Examples.host 200 [])
             (lit "Subject: x" ++ [CR; LF]) (lit "content-type:")
             (lit "  ") (lit "Multipart/Mixed ") (lit "; boundary=B"));
    try reflexivity.
  discriminate.
Defined.

(** X16.  A message whose header block declares a multipart type and has a
    first [boundary=] followed by a token (running up to the next
    semicolon, CR, LF or the end of the block) is disassembled with that
    token, its quote characters removed, as boundary. *)
Theorem multipart_disassembled (H : Host) (rawText headers : jsstring)
        (rest : list jsstring) (pre key token tail : jsstring) :
  split_re re_blank_line rawText = headers :: rest ->
  rest <> [] ->
  includes (lit "multipart") (resolveContentType H headers) = true ->
  headers = pre ++ key ++ token ++ tail ->
  not_before (lit "boundary=") pre (key ++ token ++ tail) = true ->
  length key = 9 -> ci_startsWith (lit "boundary=") key = true ->
  token <> [] -> forallb notSemiCrLf token = true ->
  stops notSemiCrLf tail = true ->
  parseText H rawText
  = disassemble (join [LF; LF] rest) (remove_class isQuote token)
      (resolveContentType H headers).
Proof.
  intros Hs Hr Hm Eh Hpre Hlen Hkey Hne Htok Htail.
  unfold parseText.
  rewrite (split_length_two _ _ _ Hs Hr), Hs; simpl hd; simpl tl.
  rewrite Hm.
  assert (Eb : exec re_boundary headers = Some token).
  { rewrite Eh; unfold re_boundary, ci_lit.
    rewrite (exec_skip _ _ _ _ Hpre).
    apply (exec_here _ _ token tail).
    rewrite ci_literal_run by assumption.
    apply cap_plus_run; assumption. }
  rewrite Eb; reflexivity.
Qed.

Lemma multipart_disassembled_witness :
  let quoted := quote ++ lit "XYZ" ++ quote in
  let text := lit "Content-Type: multipart/mixed; Boundary=" ++ quoted
              ++ [LF; LF] ++ lit "--XYZ" ++ [LF]
              ++ lit "Content-Type: text/plain" ++ [LF; LF]
              ++ lit "Hello" ++ [LF] ++ lit "--XYZ--" in
  parseText (Examples.host 200 []) text
  = {| textBody := lit "Hello"; htmlBody := None;
       contentType := text_plain |}.
Proof.
  intros quoted text.
  rewrite (multipart_disassembled (Examples.host 200 []) text
             (lit "Content-Type: multipart/mixed; Boundary=" ++ quoted)
             [lit "--XYZ" ++ [LF] ++ lit "Content-Type: text/plain";
              lit "Hello" ++ [LF] ++ lit "--XYZ--"]
             (lit "Content-Type: multipart/mixed; ") (lit "Boundary=")
             quoted []);
    try reflexivity; discriminate.
Defined.

(** ** When a section has a body *)

Lemma match_len_blank (s : jsstring) (n : nat) :
  match_len re_blank_line s = Some n ->
  exists sep after, In sep blank_lines /\ s = sep ++ after /\ n = length sep.
Proof.
  intros E.
  destruct (blank_line_shape s) as (sep & after & Hin & Es); [congruence|].
  exists sep, after; split; [exact Hin|]; split; [exact Es|].
  subst s; unfold blank_lines in Hin.
  destruct Hin as [<-|[<-|[<-|[<-|[]]]]]; simpl in E;
    [rewrite match_len_lf_lf in E | rewrite match_len_lf_cr_lf in E
     | rewrite match_len_cr_lf_lf in E | rewrite match_len_cr_lf_cr_lf in E];
    injection E as <-; reflexivity.
Qed.

Lemma blank_lines_white (sep : jsstring) :
  In sep blank_lines -> forallb isWhiteSpace sep = true /\ sep <> [].
Proof.
  unfold blank_lines; intros [<-|[<-|[<-|[<-|[]]]]];
    split; try reflexivity; discriminate.
Qed.

Lemma last_cons (x : jsstring) (l : list jsstring) :
  l <> [] -> last (x :: l) [] = last l [].
Proof. destruct l; [congruence | reflexivity]. Qed.

Lemma ends_tail (x c : code_unit) (t init : jsstring) :
  x :: t = init ++ [c] -> t <> [] -> exists init', t = init' ++ [c].
Proof.
  destruct init as [|y init]; simpl; intros E Ht; injection E as -> E.
  - congruence.
  - eauto.
Qed.

Lemma ends_tail_other (x c : code_unit) (t init : jsstring) :
  x :: t = init ++ [c] -> x <> c -> exists init', t = init' ++ [c].
Proof.
  intros E Hx; apply (ends_tail x c t init E).
  intros ->; destruct init as [|y [|z init]]; simpl in E;
    injection E; congruence.
Qed.

(** The last piece of a blank-line split of a text that ends with a
    character that is not white space ends with that character. *)
Lemma split_last_piece (s : jsstring) (c : code_unit) :
  isWhiteSpace c = false ->
  forall k cur init,
    s = init ++ [c] -> k <= length s ->
    forallb isWhiteSpace (firstn k s) = true ->
    exists init',
      last (split_go (match_len re_blank_line) s k cur) [] = init' ++ [c].
Proof.
  intros Hc; induction s as [|x t IH]; intros k cur init Es Hk Hws.
  - destruct init; discriminate.
  - destruct k as [|k]; cbn [split_go].
    + destruct (match_len re_blank_line (x :: t)) as [n|] eqn:Em.
      * destruct (match_len_blank _ _ Em) as (sep & after & Hin & Ea & ->).
        destruct (blank_lines_white _ Hin) as [Hsep Hne].
        destruct sep as [|y sep]; [congruence|].
        simpl in Ea; injection Ea as <- Et.
        simpl in Hsep; apply andb_true_iff in Hsep; destruct Hsep as [Hx Hsep].
        cbn [length].
        rewrite last_cons by apply split_go_nonempty.
        destruct (ends_tail_other _ _ _ _ Es) as (init' & Et');
          [congruence|].
        apply (IH (length sep) [] init' Et').
        -- rewrite Et, length_app; lia.
        -- rewrite Et, firstn_app, Nat.sub_diag, firstn_all; simpl.
           rewrite app_nil_r; exact Hsep.
      * destruct t as [|y t'].
        -- destruct init as [|z [|z' init]]; simpl in Es;
             injection Es; intros; subst; try discriminate.
           exists (rev cur); reflexivity.
        -- destruct (ends_tail _ _ _ _ Es) as (init' & Et');
             [discriminate|].
           apply (IH 0 (x :: cur) init' Et'); [simpl; lia | reflexivity].
    + simpl in Hws; apply andb_true_iff in Hws; destruct Hws as [Hx Hws].
      destruct (ends_tail_other _ _ _ _ Es) as (init' & Et'); [congruence|].
      apply (IH k cur init' Et'); [simpl in Hk; lia | exact Hws].
Qed.

Lemma trim_all_white (s : jsstring) :
  trim s = [] -> forallb isWhiteSpace s = true.
Proof.
  unfold trim, trimEnd, trimStart; intros E.
  apply (f_equal (@rev code_unit)) in E; rewrite rev_involutive in E.
  simpl in E.
  destruct (dropWhile_split isWhiteSpace (rev (dropWhile isWhiteSpace s)))
    as (ws & Ev & Hws).
  rewrite E, app_nil_r in Ev.
  destruct (dropWhile_split isWhiteSpace s) as (ws' & Es & Hws').
  destruct (dropWhile isWhiteSpace s) as [|c u] eqn:Eu.
  - rewrite app_nil_r in Es; subst s; exact Hws'.
  - pose proof (dropWhile_head _ _ _ _ Eu) as Hc.
    assert (Hin : In c ws)
      by (rewrite <- Ev; apply (proj1 (in_rev _ _)); left; reflexivity).
    rewrite forallb_forall in Hws; rewrite (Hws c Hin) in Hc; discriminate.
Qed.

Lemma trim_ends_nonempty (i : jsstring) (c : code_unit) :
  isWhiteSpace c = false -> trim (i ++ [c]) <> [].
Proof.
  intros Hc E; apply trim_all_white in E.
  rewrite forallb_app in E; apply andb_true_iff in E; destruct E as [_ E].
  simpl in E; rewrite Hc in E; discriminate.
Qed.

Lemma join_last (sep : jsstring) (l : list jsstring) (i : jsstring)
      (c : code_unit) :
  l <> [] -> last l [] = i ++ [c] -> exists i', join sep l = i' ++ [c].
Proof.
  induction l as [|x l IH]; [congruence|]; intros _.
  destruct l as [|y l]; simpl.
  - intros ->; eauto.
  - intros E; destruct IH as (i' & Ei); [discriminate | exact E|].
    simpl in Ei; rewrite Ei.
    exists (x ++ sep ++ i'); rewrite <- !app_assoc; reflexivity.
Qed.

Lemma blank_line_splits (text : jsstring) :
  includes [LF; LF] text = true \/ includes [LF; CR; LF] text = true ->
  exists p q l, split_re re_blank_line text = p :: q :: l.
Proof.
  intros Hb.
  assert (Hm : exists n k, n < length text
                 /\ match_len re_blank_line (skipn n text) = Some (S k)).
  { destruct Hb as [E|E]; apply includes_occurs in E;
      destruct E as (n & r & En & Hl); simpl in Hl;
      exists n; rewrite En; simpl.
    - exists 1; split; [lia | apply match_len_lf_lf].
    - exists 2; split; [lia | apply match_len_lf_cr_lf]. }
  destruct Hm as (n & k & Hn & Hm).
  apply (split_go_two (match_len re_blank_line) text [] n k Hn Hm).
Qed.

(** X17.  The body fragment of a section is not empty exactly when the
    trimmed section contains a blank line: a section that is only a header
    fragment has the empty body fragment, and any section with a blank
    line after its header fragment has a body. *)
Theorem section_body_iff_blank_line (section : jsstring) :
  sectionBody section <> []
  <-> (includes [LF; LF] (trim section) = true
       \/ includes [LF; CR; LF] (trim section) = true).
Proof.
  unfold sectionBody; split.
  - intros Hb.
    destruct (includes [LF; LF] (trim section)) eqn:E1; [auto|].
    destruct (includes [LF; CR; LF] (trim section)) eqn:E2; [auto|].
    rewrite (no_blank_line_split _ E1 E2) in Hb; exfalso; apply Hb.
    reflexivity.
  - intros Hb.
    destruct (blank_line_splits _ Hb) as (p & q & l & Es).
    assert (Hne : trim section <> [])
      by (intros E; rewrite E in Hb; destruct Hb; discriminate).
    destruct (trimmed_ends _ (trimmed_trim section) Hne) as (init & c & Ei & Hc).
    destruct (split_last_piece (trim section) c Hc 0 [] init Ei)
      as (i & Hl); [lia | reflexivity |].
    change (split_go (match_len re_blank_line) (trim section) 0 [])
      with (split_re re_blank_line (trim section)) in Hl.
    rewrite Es in Hl |- *.
    rewrite last_cons in Hl by discriminate.
    simpl tl.
    destruct (join_last [LF; LF] (q :: l) i c) as (i' & Ej);
      [discriminate | exact Hl |].
    rewrite Ej; apply trim_ends_nonempty, Hc.
Qed.

Lemma section_body_iff_blank_line_witness :
  sectionBody ([LF] ++ lit "Content-Type: text/plain" ++ [CR; LF; CR; LF]
               ++ lit "Hello" ++ [LF]) <> [].
Proof.
  apply (section_body_iff_blank_line
           ([LF] ++ lit "Content-Type: text/plain" ++ [CR; LF; CR; LF]
            ++ lit "Hello" ++ [LF])).
  right; reflexivity.
Defined.

(** ** Texts without carriage returns *)

Lemma match_len_lf_only (t : jsstring) :
  forallb (fun c => negb (c =? CR)%N) t = true ->
  match_len re_blank_line t
  = if startsWith [LF; LF] t then Some 2 else None.
Proof.
  intros Hcr; destruct (startsWith [LF; LF] t) eqn:Hs.
  - unfold startsWith in Hs.
    destruct (strip_prefix [LF; LF] t) as [x|] eqn:Ep; [|discriminate].
    apply strip_prefix_app in Ep; subst t; apply match_len_lf_lf.
  - destruct (match_len re_blank_line t) as [n|] eqn:Em; [|reflexivity].
    exfalso.
    destruct (match_len_blank _ _ Em) as (sep & after & Hin & -> & _).
    unfold blank_lines in Hin.
    destruct Hin as [<-|[<-|[<-|[<-|[]]]]];
      first [ discriminate Hs | discriminate Hcr ].
Qed.

Lemma forallb_skipn (p : code_unit -> bool) (n : nat) (s : jsstring) :
  forallb p s = true -> forallb p (skipn n s) = true.
Proof.
  revert s; induction n as [|n IH]; intros [|c s]; simpl; auto.
  intros E; apply andb_true_iff in E; apply IH, E.
Qed.

(** X18.  For a text without carriage returns the blank-line split loses
    nothing: its parts joined by LF LF are the text, so the header block, a
    blank line and the body block make up the text again. *)
Theorem lf_text_reassembles (rawText : jsstring) :
  forallb (fun c => negb (c =? CR)%N) rawText = true ->
  join [LF; LF] (split_re re_blank_line rawText) = rawText
  /\ (forall headers rest,
        split_re re_blank_line rawText = headers :: rest -> rest <> [] ->
        headers ++ [LF; LF] ++ bodyBlock rawText = rawText).
Proof.
  intros Hcr.
  assert (Hj : join [LF; LF] (split_re re_blank_line rawText) = rawText).
  { unfold split_re, split_with.
    apply (split_go_join_on (match_len re_blank_line) [LF; LF] rawText []
             rawText []); [|reflexivity].
    intros n; apply match_len_lf_only, forallb_skipn, Hcr. }
  split; [exact Hj|].
  intros headers rest Hs Hr; unfold bodyBlock.
  rewrite (split_length_two _ _ _ Hs Hr), Hs; simpl tl.
  rewrite Hs, join_cons in Hj by exact Hr; exact Hj.
Qed.

Lemma lf_text_reassembles_witness :
  join [LF; LF] (split_re re_blank_line Examples.single_html)
  = Examples.single_html.
Proof.
  destruct (lf_text_reassembles Examples.single_html) as [E _];
    [reflexivity | exact E].
Defined.
